(** * Ising: Metropolis simulation of a 2D periodic Ising ferromagnet

    A shallow embedding of [ising.js] and of the host loop of [sketch.js].

    [ising.js] holds three revisions of the constructor [Ising].  The first
    one (lines 1-318) does not parse (unbalanced parenthesis in [initialize])
    and is never run.  The revision with positional arguments (lines 382-682)
    is embedded in [Module IsingPositional], the current revision taking a
    settings object (lines 768-1079) in [Module Ising].

    Numbers.  JavaScript numbers that only ever hold integers (lattice sizes,
    counters, spins, exchange fields) are [Z]; the other ones (temperature,
    field, observables, the values of [Math.random()]) are exact rationals
    [Q], so rounding is outside the model; [Math.exp] is the exponential of
    the real numbers.  A quotient by zero is written out wherever its value
    is used.  [Module Float64] reads the loops of [update] and the additions
    of [increment] on IEEE 754 doubles, as JavaScript computes them, to tell
    where rounding matters.  Rendering ([show], [drawScale], [spinBuffer]),
    logging, file names and the starting time do not influence the
    simulation and are left out. *)

From Stdlib Require Import ZArith QArith Qround Qabs Reals Qreals Floats.
From Stdlib Require Import List String Ascii Bool Lia Lra.
Import ListNotations.
Open Scope Z_scope.

(** ** JavaScript primitives used by the engine *)

Module JS.

(** A call either returns or throws a [TypeError] (property read on
    [null] or [undefined]). *)
Inductive result (A : Type) : Type :=
| Ok (a : A)
| TypeError.
Arguments Ok {A} a.
Arguments TypeError {A}.

Definition bind {A B : Type} (m : result A) (k : A -> result B) : result B :=
  match m with
  | Ok a => k a
  | TypeError => TypeError
  end.

(** The successive values of [Math.random()]. *)
Definition Random : Type := nat -> Q.

Definition next (g : Random) : Q * Random := (g O, fun n => g (S n)).

(** The source after [k] calls. *)
Definition skip (k : nat) (g : Random) : Random := fun n => g (k + n)%nat.

(** Every value of [Math.random()] lies in [0,1). *)
Definition uniform (g : Random) : Prop :=
  forall n, (0 <= g n /\ g n < 1)%Q.

(** [l[i]]: [None] is [undefined]. *)
Definition lookup {A : Type} (l : list A) (i : Z) : option A :=
  if i <? 0 then None else nth_error l (Z.to_nat i).

(** [x < y] on numbers. *)
Definition ltb (x y : Q) : bool := negb (Qle_bool y x).

(** [a % b == 0] on integers: [a % 0] is [NaN], which equals nothing. *)
Definition rem_is_zero (a b : Z) : bool :=
  if b =? 0 then false else Z.rem a b =? 0.

(** A property that may be missing or hold [NaN]. *)
Inductive value : Type :=
| Undefined
| NaN
| Num (q : Q).

(** [v += q]. *)
Definition add_assign (v : value) (q : Q) : value :=
  match v with
  | Num p => Num (p + q)
  | Undefined | NaN => NaN
  end.

(** [r < Math.exp(x / t)] for [x < 0].  For [t = 0] the quotient is
    [-Infinity] and its exponential is 0. *)
Definition lt_exp_quot (r x t : Q) : bool :=
  if Qeq_bool t 0 then ltb r 0
  else if Rlt_dec (Q2R r) (exp (Q2R (x / t))) then true else false.

End JS.

Import JS.

(** ** Arrays of arrays of integers *)

Module Grid.

Definition t : Type := list (list Z).

(** [g[i][j]] where the cell exists, and 0 elsewhere.  The engine reads a
    cell that may be missing with [lookup]; it uses [get] on the lattices it
    has built, whose cells exist (see [IsingSpec.well_shaped]). *)
Definition get (g : t) (i j : Z) : Z :=
  match lookup g i with
  | Some col => match lookup col j with Some v => v | None => 0 end
  | None => 0
  end.

Fixpoint upd {A : Type} (f : A -> A) (n : nat) (l : list A) : list A :=
  match l, n with
  | [], _ => []
  | x :: l', O => f x :: l'
  | x :: l', S n' => x :: upd f n' l'
  end.

Definition modify (f : Z -> Z) (g : t) (i j : Z) : t :=
  if (i <? 0) || (j <? 0) then g
  else upd (upd f (Z.to_nat j)) (Z.to_nat i) g.

(** [g[i][j] = v] and [g[i][j] += d] on an existing cell. *)
Definition set (g : t) (i j v : Z) : t := modify (fun _ => v) g i j.
Definition add (g : t) (i j d : Z) : t := modify (fun x => x + d) g i j.

(** The indices [0, 1, ..., n-1] of a [for] loop. *)
Definition range (n : Z) : list Z := map Z.of_nat (seq 0 (Z.to_nat n)).

(** [for i < w: g.push([]); for j < h: g[i].push(f i j)]. *)
Definition tabulate (w h : Z) (f : Z -> Z -> Z) : t :=
  map (fun i => map (fun j => f i j) (range h)) (range w).

Definition shaped (w h : Z) (g : t) : Prop :=
  List.length g = Z.to_nat w /\
  Forall (fun col => List.length col = Z.to_nat h) g.

Definition inside (w h i j : Z) : Prop := 0 <= i < w /\ 0 <= j < h.

End Grid.

(** ** The current revision: [function Ising(settings)] *)

Module Ising.

Record Settings : Type := {
  s_width : Z;
  s_height : Z;
  s_mcStepsPerFrame : Z;
  s_averagingFrames : Z;
  s_temperature : Q;
  s_magneticField : Q;
  s_randomizeLattice : bool;
  s_loopMode : option string;      (* [None] is [null] *)
  s_loopTargetValue : Q;
  s_loopIncrement : Q
}.

(** A row of [dataTable]. *)
Record Row : Type := {
  r_temperature : Q;
  r_magneticField : Q;
  r_magnetization : Q;
  r_orderParameter : Q
}.

(** The properties of the object [this]; [looping] is the flag of the p5
    draw loop, cleared by [noLoop()]. *)
Record state : Type := {
  width : Z;
  height : Z;
  mcStepsPerFrame : Z;
  averagingFrames : Z;
  temperature : Q;
  magneticField : Q;
  randomizeLattice : bool;
  loopMode : option string;
  loopTargetValue : Q;
  loopIncrement : Q;
  frameCounter : Z;
  dataTable : list Row;
  loopBackward : bool;
  loopStartValue : Q;
  magnetization : Q;
  orderParameter : Q;
  averageMagnetization : Q;
  averageOrderParameter : Q;
  averageOrderParamter : value;    (* spelt as at line 920 *)
  spin : Grid.t;
  exchangeField : Grid.t;
  looping : bool
}.

Definition set_lattice (st : state) (s x : Grid.t) : state :=
  {| width := width st; height := height st;
     mcStepsPerFrame := mcStepsPerFrame st;
     averagingFrames := averagingFrames st;
     temperature := temperature st; magneticField := magneticField st;
     randomizeLattice := randomizeLattice st; loopMode := loopMode st;
     loopTargetValue := loopTargetValue st;
     loopIncrement := loopIncrement st; frameCounter := frameCounter st;
     dataTable := dataTable st; loopBackward := loopBackward st;
     loopStartValue := loopStartValue st;
     magnetization := magnetization st;
     orderParameter := orderParameter st;
     averageMagnetization := averageMagnetization st;
     averageOrderParameter := averageOrderParameter st;
     averageOrderParamter := averageOrderParamter st;
     spin := s; exchangeField := x; looping := looping st |}.

(** The part of [this] written by [update]. *)
Definition set_observables (st : state) (m o am ao : Q) (ax : value)
    (tbl : list Row) : state :=
  {| width := width st; height := height st;
     mcStepsPerFrame := mcStepsPerFrame st;
     averagingFrames := averagingFrames st;
     temperature := temperature st; magneticField := magneticField st;
     randomizeLattice := randomizeLattice st; loopMode := loopMode st;
     loopTargetValue := loopTargetValue st;
     loopIncrement := loopIncrement st; frameCounter := frameCounter st;
     dataTable := tbl; loopBackward := loopBackward st;
     loopStartValue := loopStartValue st;
     magnetization := m; orderParameter := o;
     averageMagnetization := am; averageOrderParameter := ao;
     averageOrderParamter := ax;
     spin := spin st; exchangeField := exchangeField st;
     looping := looping st |}.

(** The part of [this] written by [iterate], [increment] and
    [terminate]. *)
Definition set_schedule (st : state) (t h inc : Q) (back : bool)
    (fc : Z) (lp : bool) : state :=
  {| width := width st; height := height st;
     mcStepsPerFrame := mcStepsPerFrame st;
     averagingFrames := averagingFrames st;
     temperature := t; magneticField := h;
     randomizeLattice := randomizeLattice st; loopMode := loopMode st;
     loopTargetValue := loopTargetValue st;
     loopIncrement := inc; frameCounter := fc;
     dataTable := dataTable st; loopBackward := back;
     loopStartValue := loopStartValue st;
     magnetization := magnetization st;
     orderParameter := orderParameter st;
     averageMagnetization := averageMagnetization st;
     averageOrderParameter := averageOrderParameter st;
     averageOrderParamter := averageOrderParamter st;
     spin := spin st; exchangeField := exchangeField st; looping := lp |}.

(** *** [initialize] (lines 815-847) *)

(** [(randomizeLattice)? 2*Math.floor(2*Math.random()) - 1 : 1] *)
Definition initial_spin (randomize : bool) (g : Random) : Z * Random :=
  if randomize then
    let (r, g') := next g in (2 * Qfloor (2 * r) - 1, g')
  else (1, g).

(** The inner loop over [j] of the first pair of loops. *)
Fixpoint fill_column (h : nat) (randomize : bool) (g : Random)
    : list Z * Random :=
  match h with
  | O => ([], g)
  | S h' =>
      let (s, g1) := initial_spin randomize g in
      let (col, g2) := fill_column h' randomize g1 in
      (s :: col, g2)
  end.

(** The outer loop over [i]. *)
Fixpoint fill_lattice (w h : nat) (randomize : bool) (g : Random)
    : Grid.t * Random :=
  match w with
  | O => ([], g)
  | S w' =>
      let (col, g1) := fill_column h randomize g in
      let (cols, g2) := fill_lattice w' h randomize g1 in
      (col :: cols, g2)
  end.

(** [sumOverNextNeighbors] of cell [(i,j)]. *)
Definition sumOverNextNeighbors (w h : Z) (s : Grid.t) (i j : Z) : Z :=
  let right := Z.rem (i + 1) w in
  let left := Z.rem (i - 1 + w) w in
  let above := Z.rem (j + 1) h in
  let below := Z.rem (j - 1 + h) h in
  Grid.get s right j + Grid.get s left j
  + Grid.get s i above + Grid.get s i below.

Definition initialize (st : state) (g : Random) : state * Random :=
  let (s, g') :=
    fill_lattice (Z.to_nat (width st)) (Z.to_nat (height st))
      (randomizeLattice st) g in
  let x :=
    Grid.tabulate (width st) (height st)
      (sumOverNextNeighbors (width st) (height st) s) in
  (set_lattice st s x, g').

(** *** The constructor (lines 768-848) *)

(** [this.loopMode.charAt(0) == 'T'] *)
Definition starts_with_T (m : string) : bool :=
  match m with
  | String c _ => Ascii.eqb c "T"%char
  | EmptyString => false
  end.

Definition new_Ising (settings : Settings) (g : Random)
    : result (state * Random) :=
  match s_loopMode settings with
  | None => TypeError            (* [null.charAt] at line 804 *)
  | Some m =>
      let start :=
        if starts_with_T m then s_temperature settings
        else s_magneticField settings in
      Ok (initialize
            {| width := s_width settings; height := s_height settings;
               mcStepsPerFrame := s_mcStepsPerFrame settings;
               averagingFrames := s_averagingFrames settings;
               temperature := s_temperature settings;
               magneticField := s_magneticField settings;
               randomizeLattice := s_randomizeLattice settings;
               loopMode := s_loopMode settings;
               loopTargetValue := s_loopTargetValue settings;
               loopIncrement := s_loopIncrement settings;
               frameCounter := 1; dataTable := [];
               loopBackward := false; loopStartValue := start;
               magnetization := 0; orderParameter := 0;
               averageMagnetization := 0; averageOrderParameter := 0;
               averageOrderParamter := Undefined;
               spin := []; exchangeField := []; looping := true |} g)
  end.

(** *** [metropolis] (lines 861-890) *)

(** The body of the [if]: the spin is negated first, then each of the four
    [+=] reads the new [this.spin[i][j]].  The four cells exist whenever
    [(i,j)] does and both arrays have [width] columns of [height] cells. *)
Definition flip (st : state) (i j : Z) : state :=
  let s1 := Grid.set (spin st) i j (- Grid.get (spin st) i j) in
  let right := Z.rem (i + 1) (width st) in
  let left := Z.rem (i - 1 + width st) (width st) in
  let above := Z.rem (j + 1) (height st) in
  let below := Z.rem (j - 1 + height st) (height st) in
  let x1 := Grid.add (exchangeField st) right j (2 * Grid.get s1 i j) in
  let x2 := Grid.add x1 left j (2 * Grid.get s1 i j) in
  let x3 := Grid.add x2 i above (2 * Grid.get s1 i j) in
  let x4 := Grid.add x3 i below (2 * Grid.get s1 i j) in
  set_lattice st s1 x4.

(** [- 2*this.spin[i][j]*(this.exchangeField[i][j] + this.magneticField)] *)
Definition deltaE (s x : Z) (h : Q) : Q :=
  (- (2) * inject_Z s * (inject_Z x + h))%Q.

(** [deltaE >= 0 || Math.random() < Math.exp(deltaE/this.temperature)]:
    the third value is drawn only when [deltaE < 0]. *)
Definition attempt (dE t : Q) (g : Random) : bool * Random :=
  if Qle_bool 0 dE then (true, g)
  else let (r, g') := next g in (lt_exp_quot r dE t, g').

(** One pass through the body of the loop.  [this.spin[i]] missing throws;
    a missing cell [this.spin[i][j]] makes [deltaE] a [NaN], for which both
    comparisons are false (the third value is drawn all the same). *)
Definition trial (st : state) (g : Random) : result (state * Random) :=
  let (r1, g1) := next g in
  let i := Qfloor (inject_Z (width st) * r1) in
  let (r2, g2) := next g1 in
  let j := Qfloor (inject_Z (height st) * r2) in
  match lookup (spin st) i, lookup (exchangeField st) i with
  | Some scol, Some xcol =>
      match lookup scol j, lookup xcol j with
      | Some s, Some x =>
          let (accepted, g3) :=
            attempt (deltaE s x (magneticField st)) (temperature st) g2 in
          if accepted then Ok (flip st i j, g3) else Ok (st, g3)
      | _, _ => Ok (st, snd (next g2))
      end
  | _, _ => TypeError
  end.

Fixpoint trials (n : nat) (st : state) (g : Random)
    : result (state * Random) :=
  match n with
  | O => Ok (st, g)
  | S n' => bind (trial st g) (fun '(st', g') => trials n' st' g')
  end.

Definition metropolis (st : state) (g : Random) : result (state * Random) :=
  trials (Z.to_nat (mcStepsPerFrame st)) st g.

(** *** [update] and [updateDataTable] (lines 893-944) *)

(** [acc = 0; for i < w: for j < h: acc += f(i,j)] *)
Definition sum_cells (w h : Z) (f : Z -> Z -> Q) : Q :=
  fold_left
    (fun acc i => fold_left (fun acc' j => (acc' + f i j)%Q) (Grid.range h) acc)
    (Grid.range w) 0%Q.

Definition updateDataTable (st : state) : list Row :=
  dataTable st ++
  [ {| r_temperature := temperature st;
       r_magneticField := magneticField st;
       r_magnetization := averageMagnetization st;
       r_orderParameter := averageOrderParameter st |} ].

(** The weights are used inside the loops only, that is for a positive
    [width] and [height]; the quotient by [averagingFrames] is used in a row
    only when [frameCounter % averagingFrames == 0], that is for a non-zero
    [averagingFrames]. *)
Definition update (st : state) : state :=
  let weight := (1 / inject_Z (width st) / inject_Z (height st))%Q in
  let m :=
    sum_cells (width st) (height st)
      (fun i j => inject_Z (Grid.get (spin st) i j) * weight)%Q in
  let am :=
    (averageMagnetization st + m / inject_Z (averagingFrames st))%Q in
  let weight4 := (weight / 4)%Q in
  let o :=
    sum_cells (width st) (height st)
      (fun i j =>
         inject_Z (Grid.get (exchangeField st) i j)
         * inject_Z (Grid.get (spin st) i j) * weight4)%Q in
  (* line 920 adds to the property [averageOrderParamter] *)
  let ax :=
    add_assign (averageOrderParamter st)
      (o / inject_Z (averagingFrames st))%Q in
  let st1 :=
    set_observables st m o am (averageOrderParameter st) ax (dataTable st) in
  if rem_is_zero (frameCounter st1) (averagingFrames st1) then
    set_observables st1 m o 0%Q 0%Q ax (updateDataTable st1)
  else st1.

(** *** [iterate], [increment], [exitCondition], [terminate]
    (lines 1016-1077) *)

(** [Math.abs(x - y) < 1E-6] *)
Definition near (x y : Q) : bool := ltb (Qabs (x - y)) 1e-6%Q.

(** [case m:] of [switch(this.loopMode)] *)
Definition mode_is (st : state) (m : string) : bool :=
  match loopMode st with
  | Some s => String.eqb s m
  | None => false
  end.

(** [this.loopBackward = true; this.loopIncrement = -this.loopIncrement;] *)
Definition turn_back (st : state) : state :=
  set_schedule st (temperature st) (magneticField st)
    (- loopIncrement st)%Q true (frameCounter st) (looping st).

(** [this.temperature += this.loopIncrement;] *)
Definition step_temperature (st : state) : state :=
  set_schedule st (temperature st + loopIncrement st)%Q (magneticField st)
    (loopIncrement st) (loopBackward st) (frameCounter st) (looping st).

(** [this.magneticField += this.loopIncrement;] *)
Definition step_magneticField (st : state) : state :=
  set_schedule st (temperature st) (magneticField st + loopIncrement st)%Q
    (loopIncrement st) (loopBackward st) (frameCounter st) (looping st).

(** The cases ['TLOOP'] and ['HLOOP'] fall through to the next case. *)
Definition increment (st : state) : state :=
  if mode_is st "TLOOP" then
    step_temperature
      (if negb (loopBackward st)
          && near (temperature st) (loopTargetValue st)
       then turn_back st else st)
  else if mode_is st "TSWEEP" then step_temperature st
  else if mode_is st "HLOOP" then
    step_magneticField
      (if negb (loopBackward st)
          && near (magneticField st) (loopTargetValue st)
       then turn_back st else st)
  else if mode_is st "HSWEEP" then step_magneticField st
  else st.

Definition exitCondition (st : state) : bool :=
  if mode_is st "TSWEEP" then near (temperature st) (loopTargetValue st)
  else if mode_is st "HSWEEP" then
    near (magneticField st) (loopTargetValue st)
  else if mode_is st "TLOOP" then
    loopBackward st && near (temperature st) (loopStartValue st)
  else if mode_is st "HLOOP" then
    loopBackward st && near (magneticField st) (loopStartValue st)
  else Qle_bool (loopTargetValue st) (inject_Z (frameCounter st)).

(** [noLoop()] *)
Definition terminate (st : state) : state :=
  set_schedule st (temperature st) (magneticField st) (loopIncrement st)
    (loopBackward st) (frameCounter st) false.

Definition iterate (st : state) : state :=
  let st1 :=
    if rem_is_zero (frameCounter st) (averagingFrames st) then
      if exitCondition st then terminate st else increment st
    else st in
  set_schedule st1 (temperature st1) (magneticField st1) (loopIncrement st1)
    (loopBackward st1) (frameCounter st1 + 1) (looping st1).

(** *** [simulationStep] (lines 851-858) *)

Definition simulationStep (st : state) (g : Random)
    : result (state * Random) :=
  bind (metropolis st g) (fun '(st1, g1) => Ok (iterate (update st1), g1)).

(** *** The host, [sketch.js]: p5 calls [draw] once per frame until
    [noLoop()] *)

Definition draw (st : state) (g : Random) : result (state * Random) :=
  simulationStep st g.

Fixpoint frames (n : nat) (st : state) (g : Random)
    : result (state * Random) :=
  match n with
  | O => Ok (st, g)
  | S n' =>
      if looping st then
        bind (draw st g) (fun '(st', g') => frames n' st' g')
      else Ok (st, g)
  end.

(** [setup] followed by [n] frames. *)
Definition sketch (settings : Settings) (n : nat) (g : Random)
    : result (state * Random) :=
  bind (new_Ising settings g) (fun '(st, g') => frames n st g').

End Ising.

(** ** The earlier revision: [function Ising(nx, ny, mcSteps, ...)]
    (lines 382-682) *)

Module IsingPositional.

Record Row : Type := {
  r_temperature : Q;
  r_field : Q;
  r_magnetization : Q;
  r_orderParameter : Q
}.

Record state : Type := {
  nx : Z;
  ny : Z;
  mcSteps : Z;
  averagingFrames : Z;
  temp : Q;
  hField : Q;
  step : Q;
  finalValue : Q;
  loopMode : option string;
  iter : Z;
  dataTable : list Row;
  backward : bool;
  initialValue : Q;
  mag : Q;
  order : Q;
  averageMag : Q;
  averageOrder : Q;
  spin : Grid.t;
  exchangeField : Grid.t;
  looping : bool
}.

Definition set_lattice (st : state) (s x : Grid.t) : state :=
  {| nx := nx st; ny := ny st; mcSteps := mcSteps st;
     averagingFrames := averagingFrames st; temp := temp st;
     hField := hField st; step := step st; finalValue := finalValue st;
     loopMode := loopMode st; iter := iter st; dataTable := dataTable st;
     backward := backward st; initialValue := initialValue st;
     mag := mag st; order := order st; averageMag := averageMag st;
     averageOrder := averageOrder st;
     spin := s; exchangeField := x; looping := looping st |}.

Definition set_observables (st : state) (m o am ao : Q) (tbl : list Row)
    : state :=
  {| nx := nx st; ny := ny st; mcSteps := mcSteps st;
     averagingFrames := averagingFrames st; temp := temp st;
     hField := hField st; step := step st; finalValue := finalValue st;
     loopMode := loopMode st; iter := iter st; dataTable := tbl;
     backward := backward st; initialValue := initialValue st;
     mag := m; order := o; averageMag := am; averageOrder := ao;
     spin := spin st; exchangeField := exchangeField st;
     looping := looping st |}.

Definition set_schedule (st : state) (t h inc : Q) (back : bool) (n : Z)
    (lp : bool) : state :=
  {| nx := nx st; ny := ny st; mcSteps := mcSteps st;
     averagingFrames := averagingFrames st; temp := t; hField := h;
     step := inc; finalValue := finalValue st; loopMode := loopMode st;
     iter := n; dataTable := dataTable st; backward := back;
     initialValue := initialValue st; mag := mag st; order := order st;
     averageMag := averageMag st; averageOrder := averageOrder st;
     spin := spin st; exchangeField := exchangeField st; looping := lp |}.

(** *** The constructor and its two pairs of loops (lines 382-456) *)

(** Lines 451-454. *)
Definition neighbourSum (w h : Z) (s : Grid.t) (i j : Z) : Z :=
  Grid.get s (Z.rem (i + 1) w) j + Grid.get s (Z.rem (i - 1 + w) w) j
  + Grid.get s i (Z.rem (j + 1) h) + Grid.get s i (Z.rem (j - 1 + h) h).

Definition new_Ising (nx ny mcSteps averagingFrames : Z) (randomize : bool)
    (temp hField step finalValue : Q) (loopMode : option string)
    (g : Random) : result (state * Random) :=
  match loopMode with
  | None => TypeError            (* [null.charAt] at line 421 *)
  | Some m =>
      let (s, g') :=
        Ising.fill_lattice (Z.to_nat nx) (Z.to_nat ny) randomize g in
      Ok ({| nx := nx; ny := ny; mcSteps := mcSteps;
             averagingFrames := averagingFrames; temp := temp;
             hField := hField; step := step; finalValue := finalValue;
             loopMode := loopMode; iter := 1; dataTable := [];
             backward := false;
             initialValue := if Ising.starts_with_T m then temp else hField;
             mag := 0; order := 0; averageMag := 0; averageOrder := 0;
             spin := s;
             exchangeField := Grid.tabulate nx ny (neighbourSum nx ny s);
             looping := true |}, g')
  end.

(** *** [metropolis] (lines 475-491) *)

(** The body of the [if]: the four [-=] read the old [this.spin[i][j]],
    which is negated last. *)
Definition flip (st : state) (i j : Z) : state :=
  let s := Grid.get (spin st) i j in
  let x1 := Grid.add (exchangeField st) (Z.rem (i + 1) (nx st)) j (- (2 * s)) in
  let x2 := Grid.add x1 (Z.rem (i - 1 + nx st) (nx st)) j (- (2 * s)) in
  let x3 := Grid.add x2 i (Z.rem (j + 1) (ny st)) (- (2 * s)) in
  let x4 := Grid.add x3 i (Z.rem (j - 1 + ny st) (ny st)) (- (2 * s)) in
  set_lattice st (Grid.set (spin st) i j (- s)) x4.

Definition trial (st : state) (g : Random) : result (state * Random) :=
  let (r1, g1) := next g in
  let i := Qfloor (inject_Z (nx st) * r1) in
  let (r2, g2) := next g1 in
  let j := Qfloor (inject_Z (ny st) * r2) in
  match lookup (spin st) i, lookup (exchangeField st) i with
  | Some scol, Some xcol =>
      match lookup scol j, lookup xcol j with
      | Some s, Some x =>
          let (accepted, g3) :=
            Ising.attempt (Ising.deltaE s x (hField st)) (temp st) g2 in
          if accepted then Ok (flip st i j, g3) else Ok (st, g3)
      | _, _ => Ok (st, snd (next g2))
      end
  | _, _ => TypeError
  end.

Fixpoint trials (n : nat) (st : state) (g : Random)
    : result (state * Random) :=
  match n with
  | O => Ok (st, g)
  | S n' => bind (trial st g) (fun '(st', g') => trials n' st' g')
  end.

Definition metropolis (st : state) (g : Random) : result (state * Random) :=
  trials (Z.to_nat (mcSteps st)) st g.

(** *** [update] (lines 497-544) *)

Definition update (st : state) : state :=
  let weight := (1 / inject_Z (nx st) / inject_Z (ny st))%Q in
  let m :=
    Ising.sum_cells (nx st) (ny st)
      (fun i j => inject_Z (Grid.get (spin st) i j) * weight)%Q in
  let am := (averageMag st + m / inject_Z (averagingFrames st))%Q in
  let weight4 := (weight / 4)%Q in
  let o :=
    Ising.sum_cells (nx st) (ny st)
      (fun i j =>
         inject_Z (Grid.get (exchangeField st) i j)
         * inject_Z (Grid.get (spin st) i j) * weight4)%Q in
  let ao := (averageOrder st + o / inject_Z (averagingFrames st))%Q in
  if rem_is_zero (iter st) (averagingFrames st) then
    set_observables st m o 0%Q 0%Q
      (dataTable st ++
       [ {| r_temperature := temp st; r_field := hField st;
            r_magnetization := am; r_orderParameter := ao |} ])
  else set_observables st m o am ao (dataTable st).

(** *** [iterate], [increment], [exitCondition], [terminate]
    (lines 622-680) *)

(** [Math.abs(x - y) < 0.5*Math.abs(this.step)] *)
Definition near (st : state) (x y : Q) : bool :=
  ltb (Qabs (x - y)) (0.5 * Qabs (step st))%Q.

Definition mode_is (st : state) (m : string) : bool :=
  match loopMode st with
  | Some s => String.eqb s m
  | None => false
  end.

Definition turn_back (st : state) : state :=
  set_schedule st (temp st) (hField st) (- step st)%Q true (iter st)
    (looping st).

Definition step_temp (st : state) : state :=
  set_schedule st (temp st + step st)%Q (hField st) (step st) (backward st)
    (iter st) (looping st).

Definition step_hField (st : state) : state :=
  set_schedule st (temp st) (hField st + step st)%Q (step st) (backward st)
    (iter st) (looping st).

Definition increment (st : state) : state :=
  if mode_is st "TLOOP" then
    step_temp
      (if negb (backward st) && near st (temp st) (finalValue st)
       then turn_back st else st)
  else if mode_is st "TSWEEP" then step_temp st
  else if mode_is st "HLOOP" then
    step_hField
      (if negb (backward st) && near st (hField st) (finalValue st)
       then turn_back st else st)
  else if mode_is st "HSWEEP" then step_hField st
  else st.

Definition exitCondition (st : state) : bool :=
  if mode_is st "TSWEEP" then near st (temp st) (finalValue st)
  else if mode_is st "HSWEEP" then near st (hField st) (finalValue st)
  else if mode_is st "TLOOP" then
    backward st && near st (temp st) (initialValue st)
  else if mode_is st "HLOOP" then
    backward st && near st (hField st) (initialValue st)
  else Qle_bool (finalValue st) (inject_Z (iter st)).

Definition terminate (st : state) : state :=
  set_schedule st (temp st) (hField st) (step st) (backward st) (iter st)
    false.

Definition iterate (st : state) : state :=
  let st1 :=
    if rem_is_zero (iter st) (averagingFrames st) then
      if exitCondition st then terminate st else increment st
    else st in
  set_schedule st1 (temp st1) (hField st1) (step st1) (backward st1)
    (iter st1 + 1) (looping st1).

Definition simulationStep (st : state) (g : Random)
    : result (state * Random) :=
  bind (metropolis st g) (fun '(st1, g1) => Ok (iterate (update st1), g1)).

End IsingPositional.

(** ** The arithmetic of [update] and [increment] on doubles *)

Module Float64.
Import Ising.

(** An integer as a double (exact for the sizes and spins at hand). *)
Definition of_Z (z : Z) : float :=
  if z <? 0 then PrimFloat.opp (PrimFloat.of_uint63 (Uint63.of_Z (- z)))
  else PrimFloat.of_uint63 (Uint63.of_Z z).

(** [acc = 0; for i < w: for j < h: acc += f(i,j)] *)
Definition sum_cells (w h : Z) (f : Z -> Z -> float) : float :=
  fold_left
    (fun acc i =>
       fold_left (fun acc' j => PrimFloat.add acc' (f i j)) (Grid.range h) acc)
    (Grid.range w) 0%float.

(** [this.magnetization] after lines 898-905. *)
Definition magnetization (st : state) : float :=
  let weight := (1 / of_Z (width st) / of_Z (height st))%float in
  sum_cells (width st) (height st)
    (fun i j => of_Z (Grid.get (spin st) i j) * weight)%float.

(** [this.orderParameter] after lines 911-918. *)
Definition orderParameter (st : state) : float :=
  let weight := (1 / of_Z (width st) / of_Z (height st) / 4)%float in
  sum_cells (width st) (height st)
    (fun i j =>
       of_Z (Grid.get (exchangeField st) i j)
       * of_Z (Grid.get (spin st) i j) * weight)%float.

(** [this.temperature] after [k] times [this.temperature += inc]. *)
Fixpoint stepped (k : nat) (t inc : float) : float :=
  match k with
  | O => t
  | S k' => stepped k' (t + inc)%float inc
  end.

(** [Math.abs(x - y) < 1E-6]; the literal [1E-6] is the double nearest to
    1/1000000, which the division yields. *)
Definition near (x y : float) : bool :=
  PrimFloat.ltb (PrimFloat.abs (x - y)) (1 / 1000000)%float.

End Float64.

(** ** Predicates on the states of the current revision *)

Module IsingSpec.
Import Ising.

(** The sum of the spins of the four neighbours of [(i,j)] on the torus. *)
Definition neighbourSum (w h : Z) (s : Grid.t) (i j : Z) : Z :=
  Grid.get s ((i + 1) mod w) j + Grid.get s ((i - 1 + w) mod w) j
  + Grid.get s i ((j + 1) mod h) + Grid.get s i ((j - 1 + h) mod h).

(** The exchange field is the neighbour sum at every cell. *)
Definition cache_ok (st : state) : Prop :=
  forall i j, Grid.inside (width st) (height st) i j ->
    Grid.get (exchangeField st) i j =
    neighbourSum (width st) (height st) (spin st) i j.

(** Both arrays have [width] columns of [height] cells. *)
Definition well_shaped (st : state) : Prop :=
  Grid.shaped (width st) (height st) (spin st) /\
  Grid.shaped (width st) (height st) (exchangeField st).

(** The states the engine can be in: the one the constructor returns, and
    those after a trial of [metropolis], after [update] and after
    [iterate]. *)
Inductive reachable : state -> Prop :=
| reach_new (settings : Settings) (g g' : Random) (st : state) :
    new_Ising settings g = Ok (st, g') -> reachable st
| reach_trial (st st' : state) (g g' : Random) :
    reachable st -> trial st g = Ok (st', g') -> reachable st'
| reach_update (st : state) :
    reachable st -> reachable (update st)
| reach_iterate (st : state) :
    reachable st -> reachable (iterate st).

(** *** The scheduler seen on its own *)

(** What [update], [iterate], [increment], [exitCondition] and [terminate]
    read and write outside the observables, with the temperature and the
    field of every row of the table. *)
Record Schedule : Type := {
  sc_averagingFrames : Z;
  sc_temperature : Q;
  sc_magneticField : Q;
  sc_loopMode : option string;
  sc_loopTargetValue : Q;
  sc_loopIncrement : Q;
  sc_frameCounter : Z;
  sc_loopBackward : bool;
  sc_loopStartValue : Q;
  sc_looping : bool;
  sc_rows : list (Q * Q)
}.

Definition schedule_of (st : state) : Schedule :=
  {| sc_averagingFrames := averagingFrames st;
     sc_temperature := temperature st;
     sc_magneticField := magneticField st;
     sc_loopMode := loopMode st;
     sc_loopTargetValue := loopTargetValue st;
     sc_loopIncrement := loopIncrement st;
     sc_frameCounter := frameCounter st;
     sc_loopBackward := loopBackward st;
     sc_loopStartValue := loopStartValue st;
     sc_looping := looping st;
     sc_rows :=
       map (fun r => (r_temperature r, r_magneticField r)) (dataTable st) |}.

(** An engine with this schedule and no lattice. *)
Definition bare (v : Schedule) : state :=
  {| width := 0; height := 0; mcStepsPerFrame := 0;
     averagingFrames := sc_averagingFrames v;
     temperature := sc_temperature v;
     magneticField := sc_magneticField v;
     randomizeLattice := false; loopMode := sc_loopMode v;
     loopTargetValue := sc_loopTargetValue v;
     loopIncrement := sc_loopIncrement v;
     frameCounter := sc_frameCounter v;
     dataTable :=
       map (fun r : Q * Q =>
              {| r_temperature := fst r; r_magneticField := snd r;
                 r_magnetization := 0; r_orderParameter := 0 |})
           (sc_rows v);
     loopBackward := sc_loopBackward v;
     loopStartValue := sc_loopStartValue v;
     magnetization := 0; orderParameter := 0;
     averageMagnetization := 0; averageOrderParameter := 0;
     averageOrderParamter := Undefined;
     spin := []; exchangeField := []; looping := sc_looping v |}.

(** The effect of a frame on the schedule: that of [update] and [iterate]
    on the engine without lattice. *)
Definition schedule_step (v : Schedule) : Schedule :=
  schedule_of (iterate (update (bare v))).

Fixpoint schedule_frames (n : nat) (v : Schedule) : Schedule :=
  match n with
  | O => v
  | S n' => if sc_looping v then schedule_frames n' (schedule_step v) else v
  end.

(** The schedule the constructor leaves. *)
Definition initial_schedule (settings : Settings) : Schedule :=
  {| sc_averagingFrames := s_averagingFrames settings;
     sc_temperature := s_temperature settings;
     sc_magneticField := s_magneticField settings;
     sc_loopMode := s_loopMode settings;
     sc_loopTargetValue := s_loopTargetValue settings;
     sc_loopIncrement := s_loopIncrement settings;
     sc_frameCounter := 1;
     sc_loopBackward := false;
     sc_loopStartValue :=
       match s_loopMode settings with
       | Some m =>
           if starts_with_T m then s_temperature settings
           else s_magneticField settings
       | None => 0
       end;
     sc_looping := true;
     sc_rows := [] |}.

(** An engine of the earlier revision and one of the current revision that
    agree on what [metropolis] reads and writes. *)
Definition same_engine (p : IsingPositional.state) (c : state) : Prop :=
  IsingPositional.nx p = width c /\ IsingPositional.ny p = height c /\
  IsingPositional.mcSteps p = mcStepsPerFrame c /\
  IsingPositional.temp p = temperature c /\
  IsingPositional.hField p = magneticField c /\
  IsingPositional.spin p = spin c /\
  IsingPositional.exchangeField p = exchangeField c.

(** Two calls have the same outcome: both throw, or both return, with
    engines that agree and the same random source left. *)
Definition same_outcome (a : result (IsingPositional.state * Random))
    (b : result (state * Random)) : Prop :=
  match a, b with
  | Ok (p, g1), Ok (c, g2) => same_engine p c /\ g1 = g2
  | TypeError, TypeError => True
  | _, _ => False
  end.

(** The sum of [f i j] over the cells of a [w] x [h] lattice. *)
Definition total (w h : Z) (f : Z -> Z -> Z) : Z :=
  fold_right Z.add 0
    (map (fun i => fold_right Z.add 0 (map (f i) (Grid.range h)))
       (Grid.range w)).

(** Every spin of the lattice is -1 or +1. *)
Definition spins_pm1 (st : state) : Prop :=
  forall i j, Grid.inside (width st) (height st) i j ->
    Grid.get (spin st) i j = 1 \/ Grid.get (spin st) i j = -1.

(** What no step writes. *)
Definition constants (st st' : state) : Prop :=
  loopMode st' = loopMode st /\ loopStartValue st' = loopStartValue st /\
  loopTargetValue st' = loopTargetValue st /\
  averagingFrames st' = averagingFrames st /\
  width st' = width st /\ height st' = height st.

End IsingSpec.

(** ** Concrete configurations *)

Module Examples.
Import Ising.

(** A source that always returns 0. *)
Definition zeros : Random := fun _ => 0%Q.

(** A 2x2 lattice of spins +1 in a field of -5: flipping a spin has
    [deltaE = 2]. *)
Definition small_settings : Settings :=
  {| s_width := 2; s_height := 2; s_mcStepsPerFrame := 1;
     s_averagingFrames := 1; s_temperature := 1; s_magneticField := -5;
     s_randomizeLattice := false; s_loopMode := Some "TSWEEP"%string;
     s_loopTargetValue := 0.5; s_loopIncrement := -0.1 |}.

(** The loop of the scenario: temperature 2.0, target 3.0, increment 0.5,
    on one cell, without trials, one frame per block. *)
Definition loop_settings : Settings :=
  {| s_width := 1; s_height := 1; s_mcStepsPerFrame := 0;
     s_averagingFrames := 1; s_temperature := 2; s_magneticField := 0;
     s_randomizeLattice := false; s_loopMode := Some "TLOOP"%string;
     s_loopTargetValue := 3; s_loopIncrement := 0.5 |}.

(** The sweep of the scenario: a 10x10 lattice, temperature 1.0, target
    0.5, increment -0.1, blocks of 5 frames. *)
Definition sweep_settings (mcSteps : Z) (field : Q) (randomize : bool)
    : Settings :=
  {| s_width := 10; s_height := 10; s_mcStepsPerFrame := mcSteps;
     s_averagingFrames := 5; s_temperature := 1; s_magneticField := field;
     s_randomizeLattice := randomize; s_loopMode := Some "TSWEEP"%string;
     s_loopTargetValue := 0.5; s_loopIncrement := -0.1 |}.

(** A configuration with a negative temperature, blocks of 0 frames and a
    mode that is none of the four. *)
Definition invalid_settings : Settings :=
  {| s_width := 2; s_height := 2; s_mcStepsPerFrame := 1;
     s_averagingFrames := 0; s_temperature := -1; s_magneticField := -5;
     s_randomizeLattice := false; s_loopMode := Some "FOO"%string;
     s_loopTargetValue := 100; s_loopIncrement := 0 |}.

(** A configuration without lattice: width 0 and height -3. *)
Definition empty_settings : Settings :=
  {| s_width := 0; s_height := -3; s_mcStepsPerFrame := 0;
     s_averagingFrames := 1; s_temperature := 0; s_magneticField := 0;
     s_randomizeLattice := true; s_loopMode := Some "TSWEEP"%string;
     s_loopTargetValue := 1; s_loopIncrement := 1 |}.

(** One cell with spin +1, one frame per block, no trials. *)
Definition one_cell_settings : Settings :=
  {| s_width := 1; s_height := 1; s_mcStepsPerFrame := 0;
     s_averagingFrames := 1; s_temperature := 1; s_magneticField := 0;
     s_randomizeLattice := false; s_loopMode := Some "TSWEEP"%string;
     s_loopTargetValue := 0.5; s_loopIncrement := -0.1 |}.

(** The same in the earlier revision. *)
Definition one_cell_positional : result (IsingPositional.state * Random) :=
  IsingPositional.new_Ising 1 1 0 1 false 1 0 (-0.1) 0.5
    (Some "TSWEEP"%string) zeros.

(** The earlier revision on the lattice of [small_settings]. *)
Definition small_positional : result (IsingPositional.state * Random) :=
  IsingPositional.new_Ising 2 2 1 1 false 1 (-5) (-0.1) 0.5
    (Some "TSWEEP"%string) zeros.

(** The constructor followed by one trial. *)
Definition small_after_trial : result (state * Random) :=
  bind (new_Ising small_settings zeros) (fun '(st, g) => trial st g).

End Examples.

(** ** Proof tactics *)

Module IsingTactics.
Import Ising.

(** Case analysis on every test of the goal. *)
Ltac case_ifs :=
  repeat match goal with
         | |- context [if ?b then _ else _] => destruct b
         end.

(** Unfolds a frame down to the properties of [this]. *)
Ltac unfold_step :=
  unfold iterate, update, terminate, increment, exitCondition,
    step_temperature, step_magneticField, turn_back, mode_is,
    updateDataTable;
  cbn [width height mcStepsPerFrame averagingFrames temperature
       magneticField randomizeLattice loopMode loopTargetValue loopIncrement
       frameCounter dataTable loopBackward loopStartValue magnetization
       orderParameter averageMagnetization averageOrderParameter
       averageOrderParamter spin exchangeField looping
       set_lattice set_observables set_schedule].

End IsingTactics.

(** ** The energy of the header comment *)

Module Physics.
Import Ising IsingSpec.

(** The sum over the sites of the spin times the sum of its four
    neighbours: every pair of adjacent sites is counted twice. *)
Definition pair_sum (st : state) : Z :=
  total (width st) (height st)
    (fun i j =>
       Grid.get (spin st) i j
       * neighbourSum (width st) (height st) (spin st) i j).

(** [H(S) = - sum over pairs of adjacent sites of s_i s_j - h sum of s_i]
    (lines 705 and 337-338), with [J = mu = 1]. *)
Definition energy (st : state) : Q :=
  (- (inject_Z (pair_sum st) / 2)
   - magneticField st
     * inject_Z (total (width st) (height st) (Grid.get (spin st))))%Q.

End Physics.

(** ** Further configurations *)

Module Scenarios.
Import Ising.

(** A 2x2 lattice of spins +1 without field at a negative temperature:
    flipping a spin has [deltaE = -8]. *)
Definition negative_temperature : Settings :=
  {| s_width := 2; s_height := 2; s_mcStepsPerFrame := 1;
     s_averagingFrames := 1; s_temperature := -1; s_magneticField := 0;
     s_randomizeLattice := false; s_loopMode := Some "HSWEEP"%string;
     s_loopTargetValue := 1; s_loopIncrement := 0.5 |}.

(** The same at temperature 0, with three trials per frame. *)
Definition zero_temperature : Settings :=
  {| s_width := 2; s_height := 2; s_mcStepsPerFrame := 3;
     s_averagingFrames := 1; s_temperature := 0; s_magneticField := 0;
     s_randomizeLattice := false; s_loopMode := Some "HSWEEP"%string;
     s_loopTargetValue := 1; s_loopIncrement := 0.5 |}.

(** The same without averaging: [averagingFrames] is 0. *)
Definition no_averaging : Settings :=
  {| s_width := 2; s_height := 2; s_mcStepsPerFrame := 1;
     s_averagingFrames := 0; s_temperature := 0; s_magneticField := 0;
     s_randomizeLattice := false; s_loopMode := Some "TSWEEP"%string;
     s_loopTargetValue := 1; s_loopIncrement := 0.5 |}.

End Scenarios.

(** * Properties *)

(** ** Arrays *)

Module GridFacts.
Import Grid.

Lemma nth_error_upd {A : Type} (f : A -> A) (n m : nat) (l : list A) :
  nth_error (upd f n l) m =
  if Nat.eqb n m then option_map f (nth_error l m) else nth_error l m.
Proof.
  revert n m; induction l as [|x l IH]; intros [|n] [|m]; simpl; auto.
  destruct (Nat.eqb n m); reflexivity.
Qed.

Lemma length_upd {A : Type} (f : A -> A) (n : nat) (l : list A) :
  List.length (upd f n l) = List.length l.
Proof.
  revert n; induction l as [|x l IH]; intros [|n]; simpl; auto.
Qed.

Lemma lookup_Some {A : Type} (l : list A) (i : Z) (v : A) :
  lookup l i = Some v -> 0 <= i < Z.of_nat (List.length l).
Proof.
  unfold lookup; destruct (Z.ltb_spec i 0); [discriminate|].
  intros E. assert (nth_error l (Z.to_nat i) <> None) as N by congruence.
  apply nth_error_Some in N. lia.
Qed.

Lemma lookup_inside {A : Type} (l : list A) (i : Z) :
  0 <= i < Z.of_nat (List.length l) -> exists v, lookup l i = Some v.
Proof.
  intros Hi. unfold lookup. destruct (Z.ltb_spec i 0); [lia|].
  destruct (nth_error l (Z.to_nat i)) eqn:E; [eauto|].
  apply nth_error_None in E. lia.
Qed.

Lemma shaped_column (w h : Z) (g : t) (i : Z) (col : list Z) :
  shaped w h g -> lookup g i = Some col -> List.length col = Z.to_nat h.
Proof.
  intros [_ Hc] E. unfold lookup in E.
  destruct (i <? 0); [discriminate|].
  apply nth_error_In in E. rewrite Forall_forall in Hc. auto.
Qed.

Lemma shaped_cell (w h : Z) (g : t) (i j : Z) :
  shaped w h g -> inside w h i j ->
  exists col v, lookup g i = Some col /\ lookup col j = Some v.
Proof.
  intros Hs [Hi Hj].
  destruct (lookup_inside g i) as [col E]; [destruct Hs; lia|].
  destruct (lookup_inside col j) as [v E'].
  { rewrite (shaped_column w h g i col Hs E). lia. }
  eauto.
Qed.

Lemma cell_inside (w h : Z) (g : t) (i j : Z) (col : list Z) (v : Z) :
  shaped w h g -> lookup g i = Some col -> lookup col j = Some v ->
  inside w h i j.
Proof.
  intros Hs E E'. pose proof (shaped_column w h g i col Hs E) as L.
  apply lookup_Some in E, E'. destruct Hs as [Lg _]. split; lia.
Qed.

Lemma shaped_modify (w h : Z) (f : Z -> Z) (g : t) (a b : Z) :
  shaped w h g -> shaped w h (modify f g a b).
Proof.
  intros [L C]. unfold modify. destruct ((a <? 0) || (b <? 0)); [split; auto|].
  split; [now rewrite length_upd|].
  clear L. revert C. generalize (Z.to_nat a) as n.
  induction g as [|col g IH]; intros [|n] C; simpl; auto;
    inversion C; subst; constructor; auto.
  now rewrite length_upd.
Qed.

Lemma get_modify (w h : Z) (f : Z -> Z) (g : t) (a b i j : Z) :
  shaped w h g -> inside w h a b ->
  get (modify f g a b) i j =
  if (i =? a) && (j =? b) then f (get g i j) else get g i j.
Proof.
  intros Hs Hin.
  destruct (shaped_cell w h g a b Hs Hin) as (col & v & Ea & Eb).
  destruct Hin as [Ha Hb].
  unfold modify.
  unfold lookup in Ea, Eb.
  destruct (Z.ltb_spec a 0); [lia|]. destruct (Z.ltb_spec b 0); [lia|].
  simpl. unfold get, lookup.
  destruct (Z.ltb_spec i 0).
  { destruct (Z.eqb_spec i a); [lia|reflexivity]. }
  rewrite nth_error_upd.
  destruct (Z.eqb_spec i a) as [->|Ne].
  - rewrite Nat.eqb_refl, Ea. simpl.
    destruct (Z.ltb_spec j 0).
    { destruct (Z.eqb_spec j b); [lia|reflexivity]. }
    rewrite nth_error_upd.
    destruct (Z.eqb_spec j b) as [->|Ne'].
    + rewrite Nat.eqb_refl, Eb. reflexivity.
    + destruct (Nat.eqb_spec (Z.to_nat b) (Z.to_nat j)); [lia|reflexivity].
  - destruct (Nat.eqb_spec (Z.to_nat a) (Z.to_nat i)); [lia|reflexivity].
Qed.

Lemma get_add (w h : Z) (g : t) (a b d i j : Z) :
  shaped w h g -> inside w h a b ->
  get (add g a b d) i j =
  get g i j + (if (i =? a) && (j =? b) then d else 0).
Proof.
  intros Hs Hin. unfold add. rewrite (get_modify w h) by assumption.
  destruct ((i =? a) && (j =? b)); lia.
Qed.

Lemma get_set (w h : Z) (g : t) (a b v i j : Z) :
  shaped w h g -> inside w h a b ->
  get (set g a b v) i j = if (i =? a) && (j =? b) then v else get g i j.
Proof.
  intros Hs Hin. unfold set. now rewrite (get_modify w h).
Qed.

Lemma length_range (n : Z) : List.length (range n) = Z.to_nat n.
Proof. unfold range. now rewrite length_map, length_seq. Qed.

Lemma lookup_range (n i : Z) : 0 <= i < n -> lookup (range n) i = Some i.
Proof.
  intros Hi. unfold lookup, range. destruct (Z.ltb_spec i 0); [lia|].
  rewrite nth_error_map, nth_error_seq.
  destruct (Nat.ltb_spec (Z.to_nat i) (Z.to_nat n)); [|lia].
  simpl. f_equal. lia.
Qed.

Lemma lookup_map {A B : Type} (f : A -> B) (l : list A) (i : Z) :
  lookup (map f l) i = option_map f (lookup l i).
Proof.
  unfold lookup. destruct (i <? 0); [reflexivity|]. apply nth_error_map.
Qed.

Lemma get_tabulate (w h : Z) (f : Z -> Z -> Z) (i j : Z) :
  inside w h i j -> get (tabulate w h f) i j = f i j.
Proof.
  intros [Hi Hj]. unfold get, tabulate.
  rewrite lookup_map, (lookup_range w i Hi). simpl.
  rewrite lookup_map, (lookup_range h j Hj). reflexivity.
Qed.

Lemma shaped_tabulate (w h : Z) (f : Z -> Z -> Z) :
  shaped w h (tabulate w h f).
Proof.
  unfold shaped, tabulate. split.
  - now rewrite length_map, length_range.
  - apply Forall_forall. intros col Hc. apply in_map_iff in Hc.
    destruct Hc as (i & <- & _). now rewrite length_map, length_range.
Qed.

End GridFacts.

(** ** The exchange field is the neighbour sum *)

Module CacheInvariant.
Import Grid GridFacts Ising IsingSpec IsingTactics.

Lemma rem_succ (w a : Z) :
  0 <= a < w -> Z.rem (a + 1) w = if a + 1 =? w then 0 else a + 1.
Proof.
  intros H. rewrite Z.rem_mod_nonneg by lia.
  destruct (Z.eqb_spec (a + 1) w) as [E|E].
  - rewrite E. apply Z.mod_same. lia.
  - apply Z.mod_small. lia.
Qed.

Lemma rem_pred (w a : Z) :
  0 <= a < w -> Z.rem (a - 1 + w) w = if a =? 0 then w - 1 else a - 1.
Proof.
  intros H. rewrite Z.rem_mod_nonneg by lia.
  destruct (Z.eqb_spec a 0) as [E|E].
  - subst. replace (0 - 1 + w) with (w - 1) by lia. apply Z.mod_small. lia.
  - replace (a - 1 + w) with (a - 1 + 1 * w) by lia.
    rewrite Z.mod_add by lia. apply Z.mod_small. lia.
Qed.

Lemma mod_succ (w a : Z) :
  0 <= a < w -> (a + 1) mod w = Z.rem (a + 1) w.
Proof. intros H. now rewrite Z.rem_mod_nonneg by lia. Qed.

Lemma mod_pred (w a : Z) :
  0 <= a < w -> (a - 1 + w) mod w = Z.rem (a - 1 + w) w.
Proof. intros H. now rewrite Z.rem_mod_nonneg by lia. Qed.

Lemma rem_succ_range (w a : Z) : 0 <= a < w -> 0 <= Z.rem (a + 1) w < w.
Proof.
  intros H. rewrite rem_succ by assumption.
  destruct (Z.eqb_spec (a + 1) w); lia.
Qed.

Lemma rem_pred_range (w a : Z) : 0 <= a < w -> 0 <= Z.rem (a - 1 + w) w < w.
Proof.
  intros H. rewrite rem_pred by assumption.
  destruct (Z.eqb_spec a 0); lia.
Qed.

(** [i] is the right neighbour of [a] exactly when [a] is the left
    neighbour of [i], and conversely. *)
Lemma right_is_left (w a i : Z) :
  0 <= a < w -> 0 <= i < w ->
  (Z.rem (a + 1) w =? i) = (a =? Z.rem (i - 1 + w) w).
Proof.
  intros Ha Hi. rewrite rem_succ, rem_pred by assumption.
  destruct (Z.eqb_spec (a + 1) w), (Z.eqb_spec i 0);
    repeat match goal with
           | |- context [?x =? ?y] => destruct (Z.eqb_spec x y)
           end; lia.
Qed.

Lemma left_is_right (w a i : Z) :
  0 <= a < w -> 0 <= i < w ->
  (Z.rem (a - 1 + w) w =? i) = (a =? Z.rem (i + 1) w).
Proof.
  intros Ha Hi. rewrite rem_succ, rem_pred by assumption.
  destruct (Z.eqb_spec (i + 1) w), (Z.eqb_spec a 0);
    repeat match goal with
           | |- context [?x =? ?y] => destruct (Z.eqb_spec x y)
           end; lia.
Qed.

Lemma get_negated (w h : Z) (s : Grid.t) (i j a b : Z) :
  shaped w h s -> inside w h i j ->
  get (set s i j (- get s i j)) a b =
  get s a b + (if (a =? i) && (b =? j) then 2 * - get s i j else 0).
Proof.
  intros Hs Hin. rewrite (get_set w h) by assumption.
  destruct (Z.eqb_spec a i), (Z.eqb_spec b j); subst; cbn [andb]; lia.
Qed.

Lemma shaped_fill_column (h : nat) (r : bool) (g : Random) :
  List.length (fst (fill_column h r g)) = h.
Proof.
  revert g; induction h as [|h IH]; intros g; simpl; [reflexivity|].
  destruct (initial_spin r g) as [s g1].
  specialize (IH g1). destruct (fill_column h r g1). simpl in *. congruence.
Qed.

Lemma shaped_fill_lattice (w h : Z) (r : bool) (g : Random) :
  shaped w h (fst (fill_lattice (Z.to_nat w) (Z.to_nat h) r g)).
Proof.
  unfold shaped. generalize (Z.to_nat w) as n, (Z.to_nat h) as m.
  intros n m. revert g; induction n as [|n IH]; intros g; simpl.
  - split; [reflexivity|constructor].
  - pose proof (shaped_fill_column m r g) as Hc.
    destruct (fill_column m r g) as [col g1].
    specialize (IH g1). destruct (fill_lattice n m r g1) as [cols g2].
    simpl in *. destruct IH as [L F]. split; [congruence|].
    constructor; assumption.
Qed.

Lemma well_shaped_initialize (st : state) (g : Random) :
  well_shaped (fst (initialize st g)).
Proof.
  unfold initialize.
  pose proof (shaped_fill_lattice (width st) (height st)
                (randomizeLattice st) g) as Hs.
  destruct (fill_lattice _ _ _ g) as [s g']. simpl in *.
  split; simpl; [assumption|apply shaped_tabulate].
Qed.

Lemma cache_ok_initialize (st : state) (g : Random) :
  cache_ok (fst (initialize st g)).
Proof.
  unfold initialize. destruct (fill_lattice _ _ _ g) as [s g']. simpl.
  intros i j Hin. simpl in *. rewrite get_tabulate by assumption.
  destruct Hin as [Hi Hj]. unfold sumOverNextNeighbors, neighbourSum.
  now rewrite !mod_succ, !mod_pred by assumption.
Qed.

Lemma well_shaped_flip (st : state) (i j : Z) :
  well_shaped st -> well_shaped (flip st i j).
Proof.
  intros [Hs Hx]. unfold flip, well_shaped. simpl.
  split; unfold set, add; repeat apply shaped_modify; assumption.
Qed.

Lemma cache_ok_flip (st : state) (i j : Z) :
  well_shaped st -> inside (width st) (height st) i j ->
  cache_ok st -> cache_ok (flip st i j).
Proof.
  intros [Hs Hx] Hin Hc a b Hab.
  change (inside (width st) (height st) a b) in Hab.
  pose proof Hin as [Hi Hj]. pose proof Hab as [Ha Hb].
  pose proof (rem_succ_range _ _ Hi). pose proof (rem_pred_range _ _ Hi).
  pose proof (rem_succ_range _ _ Hj). pose proof (rem_pred_range _ _ Hj).
  pose proof (rem_succ_range _ _ Ha). pose proof (rem_pred_range _ _ Ha).
  pose proof (rem_succ_range _ _ Hb). pose proof (rem_pred_range _ _ Hb).
  unfold flip. cbn [spin exchangeField width height set_lattice].
  set (W := width st) in *. set (H' := height st) in *.
  rewrite !(get_add W H');
    try (unfold add; repeat apply shaped_modify; assumption);
    try (split; assumption).
  rewrite (Hc a b Hab). fold W H'. unfold neighbourSum.
  rewrite !mod_succ, !mod_pred by assumption.
  rewrite !(get_negated W H') by assumption.
  rewrite (right_is_left W a i), (left_is_right W a i) by assumption.
  rewrite (right_is_left H' b j), (left_is_right H' b j) by assumption.
  rewrite !Z.eqb_refl. cbn [andb].
  generalize (get (spin st) i j) as s. intros s.
  destruct (a =? Z.rem (i + 1) W), (a =? Z.rem (i - 1 + W) W), (a =? i),
    (b =? Z.rem (j + 1) H'), (b =? Z.rem (j - 1 + H') H'), (b =? j);
    cbn [andb]; lia.
Qed.

Lemma lattice_update (st : state) :
  width (update st) = width st /\ height (update st) = height st /\
  spin (update st) = spin st /\ exchangeField (update st) = exchangeField st.
Proof. unfold update. case_ifs; repeat split. Qed.

Lemma lattice_increment (st : state) :
  width (increment st) = width st /\ height (increment st) = height st /\
  spin (increment st) = spin st /\
  exchangeField (increment st) = exchangeField st.
Proof. unfold increment. case_ifs; repeat split. Qed.

Lemma lattice_iterate (st : state) :
  width (iterate st) = width st /\ height (iterate st) = height st /\
  spin (iterate st) = spin st /\ exchangeField (iterate st) = exchangeField st.
Proof.
  unfold iterate. cbn [width height spin exchangeField set_schedule].
  destruct (rem_is_zero _ _); [|repeat split].
  destruct (exitCondition st); [repeat split|apply lattice_increment].
Qed.

Lemma invariant_same_lattice (st st' : state) :
  width st' = width st /\ height st' = height st /\
  spin st' = spin st /\ exchangeField st' = exchangeField st ->
  well_shaped st /\ cache_ok st -> well_shaped st' /\ cache_ok st'.
Proof.
  intros (Ew & Eh & Es & Ex) [Hs Hc].
  unfold well_shaped, cache_ok in *. rewrite Ew, Eh, Es, Ex. now split.
Qed.

(** A trial that returns leaves a well-shaped lattice with a correct
    exchange field, whether the flip was accepted or not. *)
Lemma invariant_trial (st st' : state) (g g' : Random) :
  well_shaped st /\ cache_ok st -> trial st g = Ok (st', g') ->
  well_shaped st' /\ cache_ok st'.
Proof.
  intros [Hs Hc] E. unfold trial in E. cbn [next] in E.
  set (i := Qfloor _) in E. set (j := Qfloor _) in E.
  destruct (lookup (spin st) i) as [scol|] eqn:Ei; [|discriminate].
  destruct (lookup (exchangeField st) i) as [xcol|]; [|discriminate].
  destruct (lookup scol j) as [s|] eqn:Ej;
    [|injection E as <- _; now split].
  destruct (lookup xcol j) as [x|]; [|injection E as <- _; now split].
  destruct (attempt _ _ _) as [[|] g3]; injection E as <- _;
    [|now split].
  pose proof (cell_inside _ _ _ _ _ _ _ (proj1 Hs) Ei Ej) as Hin.
  split; [now apply well_shaped_flip|now apply cache_ok_flip].
Qed.

Lemma invariant_reachable (st : state) :
  reachable st -> well_shaped st /\ cache_ok st.
Proof.
  induction 1 as [settings g g' st E|st st' g g' _ IH E|st _ IH|st _ IH].
  - unfold new_Ising in E. destruct (s_loopMode settings); [|discriminate].
    injection E as E. 
    match type of E with initialize ?s0 g = _ =>
      pose proof (well_shaped_initialize s0 g) as Hs;
      pose proof (cache_ok_initialize s0 g) as Hc;
      rewrite E in Hs, Hc
    end.
    now split.
  - exact (invariant_trial _ _ _ _ IH E).
  - exact (invariant_same_lattice _ _ (lattice_update st) IH).
  - exact (invariant_same_lattice _ _ (lattice_iterate st) IH).
Qed.

(** C1.  In every reachable state (after the constructor and after any
    sequence of Metropolis trials, accepted or rejected, and of calls to
    [update] and [iterate]), [exchangeField[i][j]] is the sum of the spins
    of the four neighbours of [(i,j)] on the periodic lattice, for every
    cell [(i,j)]. *)
Theorem exchangeField_is_neighbour_sum (st : state) (i j : Z) :
  reachable st ->
  0 <= i < width st -> 0 <= j < height st ->
  get (exchangeField st) i j =
  get (spin st) ((i + 1) mod width st) j
  + get (spin st) ((i - 1 + width st) mod width st) j
  + get (spin st) i ((j + 1) mod height st)
  + get (spin st) i ((j - 1 + height st) mod height st).
Proof.
  intros R Hi Hj. destruct (invariant_reachable st R) as [_ Hc].
  apply Hc. now split.
Qed.

Lemma exchangeField_is_neighbour_sum_witness :
  match Examples.small_after_trial with
  | Ok (st, _) =>
      reachable st /\ spin st = [[-1; 1]; [1; 1]] /\
      get (exchangeField st) 1 0 =
      get (spin st) ((1 + 1) mod width st) 0
      + get (spin st) ((1 - 1 + width st) mod width st) 0
      + get (spin st) 1 ((0 + 1) mod height st)
      + get (spin st) 1 ((0 - 1 + height st) mod height st)
  | TypeError => False
  end.
Proof.
  destruct Examples.small_after_trial as [[st g]|] eqn:E;
    [|vm_compute in E; discriminate].
  assert (reachable st) as R.
  { unfold Examples.small_after_trial in E.
    destruct (new_Ising Examples.small_settings Examples.zeros)
      as [[st0 g0]|] eqn:E0; [|discriminate].
    exact (reach_trial st0 st g0 g (reach_new _ _ _ _ E0) E). }
  assert (spin st = [[-1; 1]; [1; 1]] /\ width st = 2 /\ height st = 2)
    as (Es & Ew & Eh).
  { vm_compute in E. injection E as <- _. repeat split. }
  split; [exact R|]. split; [exact Es|].
  apply (exchangeField_is_neighbour_sum st 1 0 R); lia.
Defined.

End CacheInvariant.

(** ** The Metropolis trial *)

Module Metropolis.
Import Grid GridFacts Ising IsingSpec IsingTactics.

Lemma floor_scaled_range (w : Z) (r : Q) :
  0 < w -> (0 <= r /\ r < 1)%Q -> 0 <= Qfloor (inject_Z w * r) < w.
Proof.
  intros Hw [H0 H1].
  assert (0 < inject_Z w)%Q as Hq by (unfold Qlt; simpl; lia).
  split.
  - assert (0 <= inject_Z w * r)%Q as Hp
      by (apply Qmult_le_0_compat; [apply Qlt_le_weak|]; assumption).
    exact (Qfloor_resp_le 0 _ Hp).
  - rewrite Zlt_Qlt. apply Qle_lt_trans with (inject_Z w * r)%Q.
    + apply Qfloor_le.
    + rewrite <- (Qmult_1_r (inject_Z w)) at 2.
      now apply Qmult_lt_l.
Qed.


(** On a well-shaped lattice of positive size the body of the loop reads an
    existing cell and returns. *)
Lemma trial_inside (st : state) (g : Random) :
  well_shaped st -> 0 < width st -> 0 < height st -> uniform g ->
  let i := Qfloor (inject_Z (width st) * g 0%nat) in
  let j := Qfloor (inject_Z (height st) * g 1%nat) in
  let dE :=
    deltaE (get (spin st) i j) (get (exchangeField st) i j)
      (magneticField st) in
  inside (width st) (height st) i j /\
  trial st g =
  Ok (if fst (attempt dE (temperature st) (skip 2 g))
      then flip st i j else st,
      snd (attempt dE (temperature st) (skip 2 g))).
Proof.
  intros [Hs Hx] Hw Hh Hg i j dE.
  assert (inside (width st) (height st) i j) as Hin.
  { split; apply floor_scaled_range; auto. }
  split; [exact Hin|].
  destruct (shaped_cell _ _ _ _ _ Hs Hin) as (scol & s & Ei & Ej).
  destruct (shaped_cell _ _ _ _ _ Hx Hin) as (xcol & x & Ei' & Ej').
  unfold trial. cbn [next]. fold i j. rewrite Ei, Ei', Ej, Ej'.
  assert (dE = deltaE s x (magneticField st)) as ->.
  { unfold dE, get. now rewrite Ei, Ei', Ej, Ej'. }
  change (fun n : nat => g (S (S n))) with (skip 2 g).
  destruct (attempt _ _ _) as [[|] g3]; reflexivity.
Qed.







End Metropolis.

(** ** The parameter scheduler *)

Module Scheduler.
Import Grid GridFacts Ising IsingSpec IsingTactics.



(** A trial writes [spin] and [exchangeField] only. *)
Lemma trial_frame (st st' : state) (g g' : Random) :
  trial st g = Ok (st', g') ->
  exists s x, st' = set_lattice st s x.
Proof.
  assert (st = set_lattice st (spin st) (exchangeField st)) as Eta
    by (destruct st; reflexivity).
  unfold trial. cbn [next].
  destruct (lookup (spin st) _); [|discriminate].
  destruct (lookup (exchangeField st) _) as [xcol|]; [|discriminate].
  destruct (lookup l _); [|intros E; injection E as <- _; eauto].
  destruct (lookup xcol _); [|intros E; injection E as <- _; eauto].
  destruct (attempt _ _ _) as [[|] g3]; intros E; injection E as <- _;
    [|eauto].
  unfold flip. eauto.
Qed.

Lemma trials_frame (n : nat) (st st' : state) (g g' : Random) :
  trials n st g = Ok (st', g') ->
  exists s x, st' = set_lattice st s x.
Proof.
  revert st g; induction n as [|n IH]; intros st g; simpl.
  - intros E; injection E as <- _. exists (spin st), (exchangeField st).
    destruct st; reflexivity.
  - destruct (trial st g) as [[st1 g1]|] eqn:E1; [|discriminate]. simpl.
    intros E. apply trial_frame in E1. destruct E1 as (s1 & x1 & ->).
    apply IH in E. destruct E as (s & x & ->).
    exists s, x. reflexivity.
Qed.

Lemma metropolis_frame (st st' : state) (g g' : Random) :
  metropolis st g = Ok (st', g') ->
  exists s x, st' = set_lattice st s x.
Proof. apply trials_frame. Qed.

Lemma simulationStep_frame (st st' : state) (g g' : Random) :
  simulationStep st g = Ok (st', g') ->
  exists s x, st' = iterate (update (set_lattice st s x)).
Proof.
  unfold simulationStep.
  destruct (metropolis st g) as [[st1 g1]|] eqn:E1; [|discriminate].
  simpl. intros E; injection E as <- _.
  apply metropolis_frame in E1. destruct E1 as (s & x & ->). eauto.
Qed.

Lemma step_constants (st : state) (s x : Grid.t) :
  constants st (iterate (update (set_lattice st s x))).
Proof. unfold constants. unfold_step. case_ifs; repeat split. Qed.

(** An invariant of [iterate (update _)] that does not depend on the
    lattice holds after any number of frames. *)
Lemma frames_invariant (P : state -> Prop) :
  (forall st s x, P st -> P (iterate (update (set_lattice st s x)))) ->
  forall n st g st' g',
    P st -> frames n st g = Ok (st', g') -> P st'.
Proof.
  intros Hstep. induction n as [|n IH]; intros st g st' g' HP; simpl.
  - intros E; injection E as <- _. exact HP.
  - destruct (looping st); [|intros E; injection E as <- _; exact HP].
    unfold draw. destruct (simulationStep st g) as [[st1 g1]|] eqn:E1;
      [|discriminate].
    simpl. apply simulationStep_frame in E1. destruct E1 as (s & x & ->).
    apply IH. now apply Hstep.
Qed.


Lemma new_Ising_fields (settings : Settings) (g g' : Random) (st : state) :
  new_Ising settings g = Ok (st, g') ->
  exists m,
    s_loopMode settings = Some m /\ loopMode st = Some m /\
    loopStartValue st =
      (if starts_with_T m then s_temperature settings
       else s_magneticField settings) /\
    temperature st = s_temperature settings /\
    magneticField st = s_magneticField settings /\
    loopTargetValue st = s_loopTargetValue settings /\
    loopIncrement st = s_loopIncrement settings /\
    averagingFrames st = s_averagingFrames settings /\
    width st = s_width settings /\ height st = s_height settings /\
    frameCounter st = 1 /\ loopBackward st = false /\ looping st = true /\
    dataTable st = [].
Proof.
  unfold new_Ising. destruct (s_loopMode settings) as [m|] eqn:Em;
    [|discriminate].
  unfold initialize. cbn [width height randomizeLattice].
  destruct (fill_lattice _ _ _ g) as [s g1].
  intros E; injection E as <- _. exists m. cbn. repeat split.
Qed.








(** [update] writes the observables and the table only. *)
Lemma update_writes (st : state) :
  exists m o am ao ax tbl, update st = set_observables st m o am ao ax tbl.
Proof.
  unfold update. destruct (rem_is_zero _ _).
  - do 6 eexists. unfold set_observables at 1. cbn. reflexivity.
  - do 6 eexists. reflexivity.
Qed.

(** Outside the field modes a frame leaves the field alone, and outside
    the temperature modes it leaves the temperature alone. *)
Lemma step_field_fixed (st : state) (s x : Grid.t) :
  mode_is st "HLOOP" = false -> mode_is st "HSWEEP" = false ->
  magneticField (iterate (update (set_lattice st s x))) = magneticField st.
Proof.
  unfold mode_is. intros H1 H2.
  destruct (update_writes (set_lattice st s x))
    as (m & o & am & ao & ax & tbl & ->).
  unfold_step. rewrite H1, H2. case_ifs; reflexivity.
Qed.

Lemma step_temperature_fixed (st : state) (s x : Grid.t) :
  mode_is st "TLOOP" = false -> mode_is st "TSWEEP" = false ->
  temperature (iterate (update (set_lattice st s x))) = temperature st.
Proof.
  unfold mode_is. intros H1 H2.
  destruct (update_writes (set_lattice st s x))
    as (m & o & am & ao & ax & tbl & ->).
  unfold_step. rewrite H1, H2. case_ifs; reflexivity.
Qed.

Lemma frames_field_fixed (n : nat) (st st' : state) (g g' : Random) :
  mode_is st "HLOOP" = false -> mode_is st "HSWEEP" = false ->
  frames n st g = Ok (st', g') -> magneticField st' = magneticField st.
Proof.
  intros H1 H2 E.
  refine (proj2 (frames_invariant
    (fun s0 => loopMode s0 = loopMode st /\
               magneticField s0 = magneticField st) _ n st g st' g' _ E)).
  - intros s0 s x [Em Eh].
    destruct (step_constants s0 s x) as (K & _). split; [congruence|].
    rewrite step_field_fixed; [exact Eh| |]; unfold mode_is in *;
      now rewrite Em.
  - now split.
Qed.

Lemma frames_temperature_fixed (n : nat) (st st' : state) (g g' : Random) :
  mode_is st "TLOOP" = false -> mode_is st "TSWEEP" = false ->
  frames n st g = Ok (st', g') -> temperature st' = temperature st.
Proof.
  intros H1 H2 E.
  refine (proj2 (frames_invariant
    (fun s0 => loopMode s0 = loopMode st /\
               temperature s0 = temperature st) _ n st g st' g' _ E)).
  - intros s0 s x [Em Eh].
    destruct (step_constants s0 s x) as (K & _). split; [congruence|].
    rewrite step_temperature_fixed; [exact Eh| |]; unfold mode_is in *;
      now rewrite Em.
  - now split.
Qed.

(** C8.  After any number of frames: in the modes [TSWEEP] and [TLOOP] the
    magnetic field has its initial value, in the modes [HSWEEP] and [HLOOP]
    the temperature has its initial value, and in any other mode both
    have. *)
Theorem one_active_parameter (settings : Settings) (n : nat)
    (g g' : Random) (st : state) :
  sketch settings n g = Ok (st, g') ->
  (s_loopMode settings = Some "TSWEEP"%string \/
   s_loopMode settings = Some "TLOOP"%string ->
   magneticField st = s_magneticField settings) /\
  (s_loopMode settings = Some "HSWEEP"%string \/
   s_loopMode settings = Some "HLOOP"%string ->
   temperature st = s_temperature settings) /\
  (s_loopMode settings <> Some "TSWEEP"%string ->
   s_loopMode settings <> Some "TLOOP"%string ->
   s_loopMode settings <> Some "HSWEEP"%string ->
   s_loopMode settings <> Some "HLOOP"%string ->
   temperature st = s_temperature settings /\
   magneticField st = s_magneticField settings).
Proof.
  unfold sketch.
  destruct (new_Ising settings g) as [[st0 g0]|] eqn:E0; [|discriminate].
  simpl. intros E.
  destruct (new_Ising_fields _ _ _ _ E0)
    as (m & Em & Em' & _ & Et & Eh & _).
  rewrite Em, <- Et, <- Eh.
  assert (forall k : string, Some m <> Some k -> mode_is st0 k = false)
    as Hne.
  { intros k Hk. unfold mode_is. rewrite Em'. apply String.eqb_neq.
    congruence. }
  split; [|split].
  - intros Hm. apply (frames_field_fixed n st0 st g0 g'); auto;
      apply Hne; destruct Hm as [-> | ->]; discriminate.
  - intros Hm. apply (frames_temperature_fixed n st0 st g0 g'); auto;
      apply Hne; destruct Hm as [-> | ->]; discriminate.
  - intros N1 N2 N3 N4. split.
    + apply (frames_temperature_fixed n st0 st g0 g'); auto.
    + apply (frames_field_fixed n st0 st g0 g'); auto.
Qed.

Lemma one_active_parameter_witness :
  match sketch Examples.loop_settings 3 Examples.zeros with
  | Ok (st, _) => (temperature st == 2.5)%Q /\ magneticField st = 0%Q
  | TypeError => False
  end.
Proof.
  destruct (sketch Examples.loop_settings 3 Examples.zeros)
    as [[st g]|] eqn:E; [|vm_compute in E; discriminate].
  destruct (one_active_parameter _ _ _ _ _ E) as (HT & _).
  split; [|exact (HT (or_intror eq_refl))].
  vm_compute in E. injection E as <- _. reflexivity.
Defined.

End Scheduler.

(** ** Runs of the engine *)

Module Runs.
Import Grid GridFacts Ising IsingSpec IsingTactics.
Import CacheInvariant Metropolis Scheduler.

Lemma schedule_of_bare (v : Schedule) : schedule_of (bare v) = v.
Proof.
  destruct v as [B T h m tg inc fc bk sv lp rows].
  unfold schedule_of, bare. cbn. f_equal.
  rewrite map_map. cbn. induction rows as [|[t f] rows IH]; cbn; congruence.
Qed.

(** The schedule after [update] and [iterate] is a function of the schedule
    before. *)
Lemma schedule_simulation (st : state) (s x : Grid.t) :
  schedule_of (iterate (update (set_lattice st s x))) =
  schedule_step (schedule_of st).
Proof.
  unfold schedule_step.
  assert (forall st1 st2,
            schedule_of st1 = schedule_of st2 ->
            schedule_of (iterate (update st1)) =
            schedule_of (iterate (update st2))) as Hsame.
  { clear. intros st1 st2 E.
    unfold schedule_of in E. injection E as E1 E2 E3 E4 E5 E6 E7 E8 E9 E10 E11.
    unfold update.
    cbn [frameCounter averagingFrames set_observables].
    rewrite E1, E7.
    destruct (rem_is_zero (frameCounter st2) (averagingFrames st2));
      unfold schedule_of; unfold_step;
      rewrite E1, E2, E3, E4, E5, E6, E7, E8, E9, E10;
      case_ifs;
      cbn [width height mcStepsPerFrame averagingFrames temperature
           magneticField randomizeLattice loopMode loopTargetValue
           loopIncrement frameCounter dataTable loopBackward loopStartValue
           looping set_observables set_schedule];
      rewrite ?map_app, ?E1, ?E2, ?E3, ?E4, ?E5, ?E6, ?E7, ?E8, ?E9, ?E10,
        E11;
      reflexivity. }
  apply Hsame. now rewrite schedule_of_bare.
Qed.

Lemma uniform_next (g : Random) : uniform g -> uniform (snd (next g)).
Proof. intros Hg n. apply (Hg (S n)). Qed.

Lemma uniform_skip (k : nat) (g : Random) : uniform g -> uniform (skip k g).
Proof. intros Hg n. apply Hg. Qed.

Lemma uniform_fill_column (h : nat) (r : bool) (g : Random) :
  uniform g -> uniform (snd (fill_column h r g)).
Proof.
  revert g; induction h as [|h IH]; intros g Hg; simpl; [exact Hg|].
  assert (uniform (snd (initial_spin r g))) as H1.
  { unfold initial_spin. destruct r; [now apply uniform_next|exact Hg]. }
  destruct (initial_spin r g) as [s g1]. specialize (IH g1 H1).
  destruct (fill_column h r g1). exact IH.
Qed.

Lemma uniform_fill_lattice (w h : nat) (r : bool) (g : Random) :
  uniform g -> uniform (snd (fill_lattice w h r g)).
Proof.
  revert g; induction w as [|w IH]; intros g Hg; simpl; [exact Hg|].
  pose proof (uniform_fill_column h r g Hg) as H1.
  destruct (fill_column h r g) as [col g1]. specialize (IH g1 H1).
  destruct (fill_lattice w h r g1). exact IH.
Qed.

(** The constructor returns for every mode that is a string. *)
Lemma new_Ising_returns (settings : Settings) (g : Random) :
  s_loopMode settings <> None -> uniform g ->
  exists st g',
    new_Ising settings g = Ok (st, g') /\ well_shaped st /\ uniform g' /\
    width st = s_width settings /\ height st = s_height settings /\
    schedule_of st = initial_schedule settings.
Proof.
  intros Hm Hg. unfold new_Ising, initial_schedule.
  destruct (s_loopMode settings) as [m|] eqn:Em; [|congruence].
  match goal with |- context [initialize ?s0 g] =>
    pose proof (well_shaped_initialize s0 g) as Hs;
    assert (uniform (snd (initialize s0 g))) as Hu;
    [|assert (schedule_of (fst (initialize s0 g)) = schedule_of s0
              /\ width (fst (initialize s0 g)) = width s0
              /\ height (fst (initialize s0 g)) = height s0)
        as (Hv & Hw & Hh);
      [|destruct (initialize s0 g) as [st g']]]
  end.
  - unfold initialize. cbn [width height randomizeLattice].
    pose proof (uniform_fill_lattice (Z.to_nat (s_width settings))
                  (Z.to_nat (s_height settings))
                  (s_randomizeLattice settings) g Hg) as H1.
    destruct (fill_lattice _ _ _ g). exact H1.
  - unfold initialize. destruct (fill_lattice _ _ _ g). repeat split.
  - exists st, g'. cbn [fst snd] in *. rewrite Hv. cbn in Hw, Hh |- *.
    split; [reflexivity|]. split; [exact Hs|]. split; [exact Hu|].
    split; [exact Hw|]. split; [exact Hh|]. reflexivity.
Qed.

Lemma trial_returns (st : state) (g : Random) :
  well_shaped st -> 0 < width st -> 0 < height st -> uniform g ->
  exists st' g',
    trial st g = Ok (st', g') /\ well_shaped st' /\ uniform g' /\
    width st' = width st /\ height st' = height st.
Proof.
  intros Hs Hw Hh Hg.
  destruct (trial_inside st g Hs Hw Hh Hg) as [_ ->].
  do 2 eexists. split; [reflexivity|].
  split; [|split].
  - destruct (fst _); [now apply well_shaped_flip|exact Hs].
  - unfold attempt. destruct (Qle_bool _ _); cbn [snd next].
    + now apply uniform_skip.
    + apply uniform_next. now apply uniform_skip.
  - destruct (fst _); split; reflexivity.
Qed.

Lemma trials_returns (n : nat) (st : state) (g : Random) :
  well_shaped st -> 0 < width st -> 0 < height st -> uniform g ->
  exists st' g',
    trials n st g = Ok (st', g') /\ well_shaped st' /\ uniform g' /\
    width st' = width st /\ height st' = height st.
Proof.
  revert st g; induction n as [|n IH]; intros st g Hs Hw Hh Hg; simpl.
  - exists st, g. auto.
  - destruct (trial_returns st g Hs Hw Hh Hg)
      as (st1 & g1 & -> & Hs1 & Hg1 & Ew & Eh).
    simpl. rewrite <- Ew in Hw. rewrite <- Eh in Hh.
    destruct (IH st1 g1 Hs1 Hw Hh Hg1)
      as (st' & g' & E & Hs' & Hg' & Ew' & Eh').
    exists st', g'. split; [exact E|]. split; [exact Hs'|].
    split; [exact Hg'|]. split; congruence.
Qed.

Lemma well_shaped_same_lattice (st st' : state) :
  width st' = width st /\ height st' = height st /\
  spin st' = spin st /\ exchangeField st' = exchangeField st ->
  well_shaped st -> well_shaped st'.
Proof.
  intros (Ew & Eh & Es & Ex). unfold well_shaped.
  now rewrite Ew, Eh, Es, Ex.
Qed.

(** A frame on a well-shaped lattice of positive size returns. *)
Lemma simulationStep_returns (st : state) (g : Random) :
  well_shaped st -> 0 < width st -> 0 < height st -> uniform g ->
  exists st' g',
    simulationStep st g = Ok (st', g') /\ well_shaped st' /\ uniform g' /\
    width st' = width st /\ height st' = height st /\
    schedule_of st' = schedule_step (schedule_of st).
Proof.
  intros Hs Hw Hh Hg. unfold simulationStep, metropolis.
  destruct (trials_returns (Z.to_nat (mcStepsPerFrame st)) st g Hs Hw Hh Hg)
    as (st1 & g1 & E & Hs1 & Hg1 & Ew & Eh).
  pose proof (trials_frame _ _ _ _ _ E) as (s & x & Est).
  rewrite E. simpl. exists (iterate (update st1)), g1.
  destruct (lattice_update st1) as (U1 & U2 & U3 & U4).
  destruct (lattice_iterate (update st1)) as (I1 & I2 & I3 & I4).
  split; [reflexivity|]. split; [|split; [exact Hg1|]].
  - apply (well_shaped_same_lattice st1); [|exact Hs1].
    repeat split; congruence.
  - split; [congruence|]. split; [congruence|].
    rewrite Est. apply schedule_simulation.
Qed.

(** The draw loop returns, and its schedule is that of the scheduler run
    on its own. *)
Lemma frames_returns (n : nat) (st : state) (g : Random) :
  well_shaped st -> 0 < width st -> 0 < height st -> uniform g ->
  exists st' g',
    frames n st g = Ok (st', g') /\ well_shaped st' /\
    schedule_of st' = schedule_frames n (schedule_of st).
Proof.
  revert st g; induction n as [|n IH]; intros st g Hs Hw Hh Hg; simpl.
  - exists st, g. auto.
  - change (sc_looping (schedule_of st)) with (looping st).
    destruct (looping st); [|exists st, g; auto].
    unfold draw.
    destruct (simulationStep_returns st g Hs Hw Hh Hg)
      as (st1 & g1 & -> & Hs1 & Hg1 & Ew & Eh & Ev).
    simpl. rewrite <- Ew in Hw. rewrite <- Eh in Hh.
    destruct (IH st1 g1 Hs1 Hw Hh Hg1) as (st' & g' & E & Hs' & Ev').
    exists st', g'. rewrite <- Ev. auto.
Qed.

Lemma sketch_returns (settings : Settings) (n : nat) (g : Random) :
  s_loopMode settings <> None ->
  0 < s_width settings -> 0 < s_height settings -> uniform g ->
  exists st g',
    sketch settings n g = Ok (st, g') /\ well_shaped st /\
    schedule_of st = schedule_frames n (initial_schedule settings).
Proof.
  intros Hm Hw Hh Hg. unfold sketch.
  destruct (new_Ising_returns settings g Hm Hg)
    as (st0 & g0 & -> & Hs0 & Hg0 & Ew & Eh & Ev).
  simpl. rewrite <- Ew in Hw. rewrite <- Eh in Hh. rewrite <- Ev.
  destruct (frames_returns n st0 g0 Hs0 Hw Hh Hg0) as (st & g' & E & Hs & Ev').
  eauto.
Qed.

Lemma schedule_frames_stopped (n : nat) (v : Schedule) :
  sc_looping v = false -> schedule_frames n v = v.
Proof. intros E. destruct n; simpl; [reflexivity|now rewrite E]. Qed.

Lemma schedule_frames_add (a b : nat) (v : Schedule) :
  schedule_frames (a + b) v = schedule_frames b (schedule_frames a v).
Proof.
  revert v; induction a as [|a IH]; intros v; simpl; [reflexivity|].
  destruct (sc_looping v) eqn:E; [apply IH|].
  now rewrite schedule_frames_stopped.
Qed.

(** The sweep of the scenario, for any number of trials per frame, any
    field, any initial lattice and any random source: the run returns, with
    the schedule of the scheduler run on its own. *)
Lemma sweep_run (mc : Z) (h : Q) (rz : bool) (g : Random) (n : nat) :
  uniform g ->
  exists st g',
    sketch (Examples.sweep_settings mc h rz) n g = Ok (st, g') /\
    schedule_of st =
    schedule_frames n (initial_schedule (Examples.sweep_settings mc h rz)).
Proof.
  intros Hg.
  destruct (sketch_returns (Examples.sweep_settings mc h rz) n g)
    as (st & g' & E & _ & Ev); try assumption; try reflexivity.
  - discriminate.
  - eauto.
Qed.

Lemma sweep_schedule_25 (mc : Z) (h : Q) (rz : bool) :
  let v := schedule_frames 25
             (initial_schedule (Examples.sweep_settings mc h rz)) in
  sc_looping v = true /\
  (Qabs (sc_temperature v - 0.5) < 1e-6)%Q /\
  List.length (sc_rows v) = 5%nat.
Proof. vm_compute. repeat split. Qed.

Lemma sweep_schedule_30 (mc : Z) (h : Q) (rz : bool) :
  let v := schedule_frames 30
             (initial_schedule (Examples.sweep_settings mc h rz)) in
  sc_looping v = false /\
  (Qabs (sc_temperature v - 0.5) < 1e-6)%Q /\
  Forall2 Qeq (map fst (sc_rows v)) [1; 0.9; 0.8; 0.7; 0.6; 0.5]%Q.
Proof.
  vm_compute. split; [reflexivity|]. split; [reflexivity|].
  repeat constructor.
Qed.

Lemma sweep_schedule_running (mc : Z) (h : Q) (rz : bool) (n : nat) :
  (n < 30)%nat ->
  sc_looping
    (schedule_frames n (initial_schedule (Examples.sweep_settings mc h rz)))
  = true.
Proof.
  intros Hn. do 30 (destruct n as [|n]; [vm_compute; reflexivity|]). lia.
Qed.

Lemma rows_of_schedule (st : state) :
  map r_temperature (dataTable st) = map fst (sc_rows (schedule_of st)).
Proof. unfold schedule_of. cbn. now rewrite map_map. Qed.

Lemma length_rows_of_schedule (st : state) :
  List.length (dataTable st) = List.length (sc_rows (schedule_of st)).
Proof. unfold schedule_of. cbn. now rewrite length_map. Qed.

(** C5, as the code has it.  In the sweep of the scenario (temperature 1.0,
    target 0.5, increment -0.1, blocks of 5 frames) the draw loop is still
    running after every number of frames below 30; after 5 completed
    blocks (25 frames) the temperature is within 1e-6 of 0.5 and 5 rows
    have been recorded; the loop is stopped by the 30th frame, at the end
    of the 6th block, and from then on the table holds exactly the 6 rows
    recorded at the temperatures 1.0, 0.9, 0.8, 0.7, 0.6 and 0.5. *)
Theorem sweep_stops_after_six_blocks (mc : Z) (h : Q) (rz : bool)
    (g : Random) :
  uniform g ->
  (forall n, (n < 30)%nat ->
     exists st g',
       sketch (Examples.sweep_settings mc h rz) n g = Ok (st, g') /\
       looping st = true) /\
  (exists st g',
     sketch (Examples.sweep_settings mc h rz) 25 g = Ok (st, g') /\
     (Qabs (temperature st - 0.5) < 1e-6)%Q /\
     List.length (dataTable st) = 5%nat) /\
  (forall n, (30 <= n)%nat ->
     exists st g',
       sketch (Examples.sweep_settings mc h rz) n g = Ok (st, g') /\
       looping st = false /\
       (Qabs (temperature st - 0.5) < 1e-6)%Q /\
       Forall2 Qeq (map r_temperature (dataTable st))
         [1; 0.9; 0.8; 0.7; 0.6; 0.5]%Q).
Proof.
  intros Hg. split; [|split].
  - intros n Hn. destruct (sweep_run mc h rz g n Hg) as (st & g' & E & Ev).
    exists st, g'. split; [exact E|].
    change (looping st) with (sc_looping (schedule_of st)). rewrite Ev.
    now apply sweep_schedule_running.
  - destruct (sweep_run mc h rz g 25 Hg) as (st & g' & E & Ev).
    exists st, g'. split; [exact E|].
    destruct (sweep_schedule_25 mc h rz) as (_ & Ht & Hl).
    rewrite length_rows_of_schedule.
    change (temperature st) with (sc_temperature (schedule_of st)).
    rewrite Ev. now split.
  - intros n Hn. destruct (sweep_run mc h rz g n Hg) as (st & g' & E & Ev).
    exists st, g'. split; [exact E|].
    destruct (sweep_schedule_30 mc h rz) as (Hl & Ht & Hr).
    replace n with (30 + (n - 30))%nat in Ev by lia.
    rewrite schedule_frames_add, schedule_frames_stopped in Ev by exact Hl.
    rewrite rows_of_schedule.
    change (temperature st) with (sc_temperature (schedule_of st)).
    change (looping st) with (sc_looping (schedule_of st)).
    rewrite Ev. now repeat split.
Qed.

Lemma uniform_zeros : uniform Examples.zeros.
Proof. intros n. unfold Examples.zeros, Qle, Qlt. simpl. lia. Qed.

Lemma sweep_stops_after_six_blocks_witness :
  uniform Examples.zeros /\
  exists st g',
    sketch (Examples.sweep_settings 100 0 false) 40 Examples.zeros
    = Ok (st, g') /\
    looping st = false /\ List.length (dataTable st) = 6%nat.
Proof.
  split; [exact uniform_zeros|].
  destruct (sweep_stops_after_six_blocks 100 0 false Examples.zeros
              uniform_zeros) as (_ & _ & H).
  destruct (H 40%nat ltac:(lia)) as (st & g' & E & Hl & _ & Hr).
  exists st, g'. split; [exact E|]. split; [exact Hl|].
  apply Forall2_length in Hr. now rewrite length_map in Hr.
Defined.

(** C5 as stated fails: with 1000 trials per frame, no field and all spins
    up initially, the loop is still running after 5 completed blocks (25
    frames), and a 6th row is recorded by the 30th frame. *)
Lemma sweep_not_stopped_after_five_blocks :
  (exists st g',
     sketch (Examples.sweep_settings 1000 0 false) 25 Examples.zeros
     = Ok (st, g') /\
     looping st = true /\ List.length (dataTable st) = 5%nat) /\
  (exists st g',
     sketch (Examples.sweep_settings 1000 0 false) 30 Examples.zeros
     = Ok (st, g') /\
     List.length (dataTable st) = 6%nat).
Proof.
  split.
  - destruct (sweep_run 1000 0 false Examples.zeros 25 uniform_zeros)
      as (st & g' & E & Ev).
    exists st, g'. split; [exact E|].
    destruct (sweep_schedule_25 1000 0 false) as (Hl & _ & Hr).
    rewrite length_rows_of_schedule.
    change (looping st) with (sc_looping (schedule_of st)).
    rewrite Ev. now split.
  - destruct (sweep_run 1000 0 false Examples.zeros 30 uniform_zeros)
      as (st & g' & E & Ev).
    exists st, g'. split; [exact E|].
    destruct (sweep_schedule_30 1000 0 false) as (_ & _ & Hr).
    rewrite length_rows_of_schedule, Ev.
    apply Forall2_length in Hr. now rewrite length_map in Hr.
Qed.

End Runs.

(** ** The two revisions of [metropolis] *)

Module Revisions.
Import Grid GridFacts Ising IsingSpec IsingTactics.

(** Reading the cell just negated gives the negated value (0 for a cell
    that does not exist). *)
Lemma get_negated_cell (s : Grid.t) (i j : Z) :
  get (set s i j (- get s i j)) i j = - get s i j.
Proof.
  unfold set, modify, get, lookup.
  destruct (Z.ltb_spec i 0); [reflexivity|].
  destruct (Z.ltb_spec j 0); cbn [orb].
  { destruct (nth_error s (Z.to_nat i)); reflexivity. }
  rewrite nth_error_upd, Nat.eqb_refl.
  destruct (nth_error s (Z.to_nat i)) as [col|]; [|reflexivity].
  cbn [option_map]. rewrite nth_error_upd, Nat.eqb_refl.
  destruct (nth_error col (Z.to_nat j)); reflexivity.
Qed.

(** Subtracting twice the old spin from the four neighbours and negating
    the spin afterwards gives the arrays that negating first and adding
    twice the new spin gives. *)
Lemma flip_agrees (p : IsingPositional.state) (c : state) (i j : Z) :
  same_engine p c -> same_engine (IsingPositional.flip p i j) (flip c i j).
Proof.
  intros (Ew & Eh & Em & Et & Ef & Es & Ex).
  unfold same_engine, IsingPositional.flip, flip.
  cbn [IsingPositional.nx IsingPositional.ny IsingPositional.mcSteps
       IsingPositional.temp IsingPositional.hField IsingPositional.spin
       IsingPositional.exchangeField IsingPositional.set_lattice
       width height mcStepsPerFrame temperature magneticField spin
       exchangeField set_lattice].
  rewrite Ew, Eh, Es, Ex, get_negated_cell.
  replace (- (2 * get (spin c) i j)) with (2 * - get (spin c) i j) by lia.
  repeat split; assumption.
Qed.

Lemma trial_agrees (p : IsingPositional.state) (c : state) (g : Random) :
  same_engine p c -> same_outcome (IsingPositional.trial p g) (trial c g).
Proof.
  intros E. pose proof E as (Ew & Eh & Em & Et & Ef & Es & Ex).
  unfold IsingPositional.trial, trial. cbn [next].
  rewrite Ew, Eh, Es, Ex, Et, Ef.
  destruct (lookup (spin c) _) as [scol|]; [|exact I].
  destruct (lookup (exchangeField c) _) as [xcol|]; [|exact I].
  destruct (lookup scol _) as [s|]; [|now split].
  destruct (lookup xcol _) as [x|]; [|now split].
  destruct (attempt _ _ _) as [[|] g3]; (split; [|reflexivity]).
  - now apply flip_agrees.
  - exact E.
Qed.

Lemma trials_agree (n : nat) (p : IsingPositional.state) (c : state)
    (g : Random) :
  same_engine p c ->
  same_outcome (IsingPositional.trials n p g) (trials n c g).
Proof.
  revert p c g; induction n as [|n IH]; intros p c g E; simpl.
  - now split.
  - pose proof (trial_agrees p c g E) as H. unfold same_outcome in H.
    destruct (IsingPositional.trial p g) as [[p1 g1]|],
             (trial c g) as [[c1 g2]|]; try contradiction; [|exact I].
    destruct H as [E1 <-]. simpl. now apply IH.
Qed.

(** C10.  For engines of the two revisions that agree on the lattice, its
    size, the temperature, the field and the number of trials: flipping any
    cell [(i,j)] gives the same spins and the same exchange field in both
    (subtracting twice the old spin from the four neighbours before
    negating, or adding twice the new spin after negating), and for every
    random source [metropolis] has the same outcome in both. *)
Theorem metropolis_revisions_agree (p : IsingPositional.state) (c : state) :
  same_engine p c ->
  (forall i j,
     IsingPositional.spin (IsingPositional.flip p i j) = spin (flip c i j) /\
     IsingPositional.exchangeField (IsingPositional.flip p i j) =
     exchangeField (flip c i j)) /\
  (forall g,
     same_outcome (IsingPositional.trial p g) (trial c g) /\
     same_outcome (IsingPositional.metropolis p g) (metropolis c g)).
Proof.
  intros E. split.
  - intros i j.
    destruct (flip_agrees p c i j E) as (_ & _ & _ & _ & _ & Hs & Hx).
    now split.
  - intros g. split; [now apply trial_agrees|].
    unfold IsingPositional.metropolis, metropolis.
    destruct E as (Ew & Eh & Em & Et & Ef & Es & Ex). rewrite Em.
    apply trials_agree. repeat split; assumption.
Qed.

Lemma metropolis_revisions_agree_witness :
  match Examples.small_positional,
        new_Ising Examples.small_settings Examples.zeros with
  | Ok (p, _), Ok (c, _) =>
      same_engine p c /\
      IsingPositional.spin (IsingPositional.flip p 0 1) = [[1; -1]; [1; 1]] /\
      spin (flip c 0 1) = [[1; -1]; [1; 1]] /\
      IsingPositional.exchangeField (IsingPositional.flip p 0 1) =
      exchangeField (flip c 0 1)
  | _, _ => False
  end.
Proof.
  destruct Examples.small_positional as [[p g1]|] eqn:Ep;
    [|vm_compute in Ep; discriminate].
  destruct (new_Ising Examples.small_settings Examples.zeros)
    as [[c g2]|] eqn:Ec; [|vm_compute in Ec; discriminate].
  assert (same_engine p c) as E.
  { vm_compute in Ep, Ec. injection Ep as <- _. injection Ec as <- _.
    repeat split. }
  destruct (metropolis_revisions_agree p c E) as [Hflip _].
  destruct (Hflip 0 1) as [Hs Hx].
  split; [exact E|]. split; [|split; [|exact Hx]].
  - vm_compute in Ep. injection Ep as <- _. reflexivity.
  - vm_compute in Ec. injection Ec as <- _. reflexivity.
Defined.

End Revisions.

(** ** The constructor *)

Module Construction.
Import Grid GridFacts Ising IsingSpec IsingTactics CacheInvariant Runs.

(** C7 fails on the code.  Whatever the other settings and the random
    source, the constructor throws a [TypeError] for [loopMode: null]
    ([this.loopMode.charAt(0)] at line 804, and the same at line 421 of the
    earlier revision), although the usage notes (lines 757 and 748) let
    [loopMode] be [null]. *)
Theorem constructor_throws_on_null_mode (w h mc b : Z) (t f tg inc : Q)
    (rz : bool) (g : Random) :
  new_Ising
    {| s_width := w; s_height := h; s_mcStepsPerFrame := mc;
       s_averagingFrames := b; s_temperature := t; s_magneticField := f;
       s_randomizeLattice := rz; s_loopMode := None;
       s_loopTargetValue := tg; s_loopIncrement := inc |} g = TypeError /\
  IsingPositional.new_Ising w h mc b rz t f inc tg None g = TypeError.
Proof. split; reflexivity. Qed.

(** C6 as stated fails: the constructor returns an engine for a negative
    temperature, blocks of 0 frames and an unknown mode, and a frame runs
    on it and flips a spin; it also returns one for a width of 0 and a
    negative height, and a frame runs on that one too. *)
Lemma invalid_settings_accepted :
  (exists st g,
     sketch Examples.invalid_settings 1 Examples.zeros = Ok (st, g) /\
     temperature st = (-1)%Q /\ averagingFrames st = 0 /\
     loopMode st = Some "FOO"%string /\
     spin st = [[-1; 1]; [1; 1]] /\ frameCounter st = 2) /\
  (exists st g,
     sketch Examples.empty_settings 1 Examples.zeros = Ok (st, g) /\
     width st = 0 /\ height st = -3 /\ spin st = [] /\ frameCounter st = 2).
Proof.
  split; vm_compute; do 2 eexists; repeat split.
Qed.

(** C6, as the code has it.  The constructor checks none of the settings:
    for every mode that is a string, one of the four or not, and whatever
    the width, height, block size and temperature, it returns an engine
    that carries these settings unchanged, with a lattice of [max(W,0)]
    columns of [max(H,0)] cells. *)
Theorem constructor_validates_nothing (settings : Settings) (m : string)
    (g : Random) :
  s_loopMode settings = Some m ->
  exists st g',
    new_Ising settings g = Ok (st, g') /\
    width st = s_width settings /\ height st = s_height settings /\
    averagingFrames st = s_averagingFrames settings /\
    temperature st = s_temperature settings /\
    loopMode st = Some m /\
    List.length (spin st) = Z.to_nat (Z.max (s_width settings) 0) /\
    Forall (fun col => List.length col = Z.to_nat (Z.max (s_height settings) 0))
      (spin st) /\
    looping st = true.
Proof.
  intros Em. unfold new_Ising. rewrite Em.
  match goal with |- context [initialize ?s0 g] =>
    pose proof (well_shaped_initialize s0 g) as [[Hl Hc] _];
    assert (schedule_of (fst (initialize s0 g)) = schedule_of s0
            /\ width (fst (initialize s0 g)) = width s0
            /\ height (fst (initialize s0 g)) = height s0)
      as (Hv & Hw & Hh)
      by (unfold initialize; destruct (fill_lattice _ _ _ g); repeat split);
    destruct (initialize s0 g) as [st g']
  end.
  cbn [fst width height] in *. exists st, g'.
  injection Hv as E1 E2 _ E4 _ _ _ _ _ E10 _. cbn in E1, E2, E4, E10.
  rewrite Hw in Hl. rewrite Hh in Hc.
  replace (Z.to_nat (Z.max (s_width settings) 0))
    with (Z.to_nat (s_width settings)) by lia.
  replace (Z.to_nat (Z.max (s_height settings) 0))
    with (Z.to_nat (s_height settings)) by lia.
  repeat (split; [first [reflexivity | assumption]|]). exact E10.
Qed.

Lemma constructor_validates_nothing_witness :
  s_loopMode Examples.invalid_settings = Some "FOO"%string /\
  exists st g',
    new_Ising Examples.invalid_settings Examples.zeros = Ok (st, g') /\
    temperature st = (-1)%Q /\ averagingFrames st = 0.
Proof.
  split; [reflexivity|].
  destruct (constructor_validates_nothing Examples.invalid_settings "FOO"
              Examples.zeros eq_refl)
    as (st & g' & E & _ & _ & Eb & Et & _).
  exists st, g'. split; [exact E|]. split; [exact Et|exact Eb].
Defined.

End Construction.

(** ** The observables and the table *)

Module Observables.
Import Grid GridFacts Ising IsingSpec IsingTactics CacheInvariant.

Lemma row_sum (F : Z -> Q) (f : Z -> Z) (c : Q) (l : list Z) (acc : Q) :
  (forall j, F j == inject_Z (f j) * c)%Q ->
  (fold_left (fun a j => a + F j) l acc ==
   acc + inject_Z (fold_right Z.add 0%Z (map f l)) * c)%Q.
Proof.
  intros HF. revert acc; induction l as [|j l IH]; intros acc; simpl.
  - ring.
  - rewrite IH, HF, inject_Z_plus. ring.
Qed.

(** The nested loops add up to the sum over the cells times the weight. *)
Lemma sum_cells_scaled (w h : Z) (F : Z -> Z -> Q) (f : Z -> Z -> Z)
    (c : Q) :
  (forall i j, F i j == inject_Z (f i j) * c)%Q ->
  (sum_cells w h F == inject_Z (total w h f) * c)%Q.
Proof.
  intros HF. unfold sum_cells, total.
  assert (forall l acc,
            (fold_left
               (fun acc0 i =>
                  fold_left (fun a j => a + F i j) (range h) acc0) l acc ==
             acc + inject_Z
                     (fold_right Z.add 0%Z
                        (map (fun i =>
                                fold_right Z.add 0%Z (map (f i) (range h))) l))
                   * c)%Q) as Hout.
  { induction l as [|i l IH]; intros acc; simpl.
    - ring.
    - rewrite IH, (row_sum (F i) (f i) c) by apply HF.
      rewrite inject_Z_plus. ring. }
  rewrite Hout. ring.
Qed.

Lemma in_range (n i : Z) : In i (range n) -> 0 <= i < n.
Proof.
  unfold range. rewrite in_map_iff. intros (k & <- & Hk).
  apply in_seq in Hk. lia.
Qed.

Lemma list_sum_bound (f : Z -> Z) (b : Z) (l : list Z) :
  (forall x, In x l -> - b <= f x <= b) ->
  - (Z.of_nat (List.length l) * b) <= fold_right Z.add 0%Z (map f l)
  <= Z.of_nat (List.length l) * b.
Proof.
  induction l as [|x l IH]; intros Hb; simpl fold_right; simpl List.length.
  - lia.
  - pose proof (Hb x (or_introl eq_refl)).
    assert (forall y, In y l -> - b <= f y <= b) as Hl
      by (intros y Hy; apply Hb; now right).
    specialize (IH Hl). nia.
Qed.

Lemma total_bound (w h b : Z) (f : Z -> Z -> Z) :
  0 <= w -> 0 <= h ->
  (forall i j, inside w h i j -> - b <= f i j <= b) ->
  - (w * h * b) <= total w h f <= w * h * b.
Proof.
  intros Hw Hh Hb. unfold total.
  pose proof (list_sum_bound
                (fun i => fold_right Z.add 0%Z (map (f i) (range h)))
                (h * b) (range w)) as Hout.
  rewrite length_range in Hout. rewrite Z2Nat.id in Hout by assumption.
  replace (w * h * b) with (w * (h * b)) by ring. apply Hout.
  intros i Hi. apply in_range in Hi.
  pose proof (list_sum_bound (f i) b (range h)) as Hin.
  rewrite length_range in Hin. rewrite Z2Nat.id in Hin by assumption.
  apply Hin. intros j Hj. apply in_range in Hj. apply Hb. now split.
Qed.

Lemma observables_of_update (st : state) :
  magnetization (update st) =
  sum_cells (width st) (height st)
    (fun i j =>
       inject_Z (get (spin st) i j)
       * (1 / inject_Z (width st) / inject_Z (height st)))%Q /\
  orderParameter (update st) =
  sum_cells (width st) (height st)
    (fun i j =>
       inject_Z (get (exchangeField st) i j) * inject_Z (get (spin st) i j)
       * (1 / inject_Z (width st) / inject_Z (height st) / 4))%Q.
Proof. unfold update. case_ifs; split; reflexivity. Qed.

(** A quotient of an integer by a positive integer that bounds it lies in
    [-1,1]. *)
Lemma ratio_bound (n d : Z) :
  0 < d -> - d <= n <= d ->
  (-1 <= inject_Z n * (1 / inject_Z d) /\ inject_Z n * (1 / inject_Z d) <= 1)%Q.
Proof.
  intros Hd [Hlo Hhi].
  assert (0 < inject_Z d)%Q as Hq by (unfold Qlt; simpl; lia).
  assert (inject_Z n * (1 / inject_Z d) == inject_Z n / inject_Z d)%Q as ->
    by (field; intros E; rewrite E in Hq; discriminate).
  split.
  - apply Qle_shift_div_l; [exact Hq|].
    unfold Qle, Qmult, inject_Z. cbn [Qnum Qden]. lia.
  - apply Qle_shift_div_r; [exact Hq|].
    unfold Qle, Qmult, inject_Z. cbn [Qnum Qden]. lia.
Qed.

Lemma exchange_times_spin_bound (st : state) (i j : Z) :
  spins_pm1 st -> cache_ok st -> inside (width st) (height st) i j ->
  - 4 <= get (exchangeField st) i j * get (spin st) i j <= 4.
Proof.
  intros Hs Hc Hin. rewrite (Hc i j Hin). unfold neighbourSum.
  destruct Hin as [Hi Hj].
  assert (0 < width st) as Hw by lia. assert (0 < height st) as Hh by lia.
  pose proof (Z.mod_pos_bound (i + 1) (width st) Hw) as B1.
  pose proof (Z.mod_pos_bound (i - 1 + width st) (width st) Hw) as B2.
  pose proof (Z.mod_pos_bound (j + 1) (height st) Hh) as B3.
  pose proof (Z.mod_pos_bound (j - 1 + height st) (height st) Hh) as B4.
  pose proof (Hs i j (conj Hi Hj)) as S0.
  pose proof (Hs ((i + 1) mod width st) j (conj B1 Hj)) as S1.
  pose proof (Hs ((i - 1 + width st) mod width st) j (conj B2 Hj)) as S2.
  pose proof (Hs i ((j + 1) mod height st) (conj Hi B3)) as S3.
  pose proof (Hs i ((j - 1 + height st) mod height st) (conj Hi B4)) as S4.
  destruct S0 as [E0|E0], S1 as [E1|E1], S2 as [E2|E2], S3 as [E3|E3],
    S4 as [E4|E4]; rewrite E0, E1, E2, E3, E4; lia.
Qed.

(** C9, as the code has it.  On a lattice of positive size whose spins are
    -1 or +1 and whose exchange field is the neighbour sum, the observables
    that [update] computes are, in exact arithmetic, the magnetization
    [(1/(W*H)) * sum of spin[i][j]] and the order parameter
    [(1/(4*W*H)) * sum of exchangeField[i][j]*spin[i][j]], and both lie
    in [-1,1]. *)
Theorem observables_formula_and_bounds (st : state) :
  0 < width st -> 0 < height st -> spins_pm1 st -> cache_ok st ->
  let W := inject_Z (width st) in
  let H := inject_Z (height st) in
  let M := magnetization (update st) in
  let eta := orderParameter (update st) in
  (M == 1 / (W * H)
        * inject_Z (total (width st) (height st) (get (spin st))))%Q /\
  (eta == 1 / (4 * W * H)
          * inject_Z
              (total (width st) (height st)
                 (fun i j =>
                    (get (exchangeField st) i j * get (spin st) i j)%Z)))%Q /\
  (-1 <= M /\ M <= 1)%Q /\ (-1 <= eta /\ eta <= 1)%Q.
Proof.
  intros Hw Hh Hs Hc W H M eta.
  destruct (observables_of_update st) as [EM Eeta].
  assert (0 < W)%Q as HW by (unfold W, Qlt; simpl; lia).
  assert (0 < H)%Q as HH by (unfold H, Qlt; simpl; lia).
  assert (~ W == 0)%Q as HW0 by (intros E; rewrite E in HW; discriminate).
  assert (~ H == 0)%Q as HH0 by (intros E; rewrite E in HH; discriminate).
  assert (M == inject_Z (total (width st) (height st) (get (spin st)))
               * (1 / inject_Z (width st * height st)))%Q as HM.
  { unfold M. rewrite EM.
    rewrite (sum_cells_scaled _ _ _ (get (spin st))
               (1 / inject_Z (width st) / inject_Z (height st)))
      by (intros; reflexivity).
    rewrite inject_Z_mult. fold W H. field. now split. }
  assert (eta == inject_Z
                   (total (width st) (height st)
                      (fun i j =>
                         (get (exchangeField st) i j * get (spin st) i j)%Z))
                 * (1 / inject_Z (width st * height st * 4)))%Q as Heta.
  { unfold eta. rewrite Eeta.
    rewrite (sum_cells_scaled _ _ _
               (fun i j => get (exchangeField st) i j * get (spin st) i j)
               (1 / inject_Z (width st) / inject_Z (height st) / 4))
      by (intros; rewrite inject_Z_mult; reflexivity).
    rewrite !inject_Z_mult. fold W H. field. now split. }
  split; [|split; [|split]].
  - rewrite HM, inject_Z_mult. fold W H. field. now split.
  - rewrite Heta, !inject_Z_mult. fold W H. field. now split.
  - rewrite HM. apply ratio_bound; [nia|].
    pose proof (total_bound (width st) (height st) 1 (get (spin st))) as Hb.
    rewrite Z.mul_1_r in Hb. apply Hb; try lia.
    intros i j Hin. destruct (Hs i j Hin) as [-> | ->]; lia.
  - rewrite Heta. apply ratio_bound; [nia|].
    apply total_bound; try lia.
    intros i j Hin. now apply exchange_times_spin_bound.
Qed.

Lemma small_after_trial_state :
  match Examples.small_after_trial with
  | Ok (st, _) =>
      reachable st /\ width st = 2 /\ height st = 2 /\
      spin st = [[-1; 1]; [1; 1]] /\ exchangeField st = [[4; 0]; [0; 4]]
  | TypeError => False
  end.
Proof.
  destruct Examples.small_after_trial as [[st g]|] eqn:E;
    [|vm_compute in E; discriminate].
  split.
  - unfold Examples.small_after_trial in E.
    destruct (new_Ising Examples.small_settings Examples.zeros)
      as [[st0 g0]|] eqn:E0; [|discriminate].
    exact (reach_trial st0 st g0 g (reach_new _ _ _ _ E0) E).
  - vm_compute in E. injection E as <- _. repeat split.
Qed.

Lemma observables_formula_and_bounds_witness :
  match Examples.small_after_trial with
  | Ok (st, _) =>
      0 < width st /\ 0 < height st /\ spins_pm1 st /\ cache_ok st /\
      (magnetization (update st) == 0.5)%Q /\
      (orderParameter (update st) == 0)%Q /\
      (-1 <= magnetization (update st) /\ magnetization (update st) <= 1)%Q
  | TypeError => False
  end.
Proof.
  pose proof small_after_trial_state as Hst.
  destruct Examples.small_after_trial as [[st g]|]; [|exact Hst].
  destruct Hst as (R & Ew & Eh & Es & Ex).
  assert (0 < width st) as Hw by lia.
  assert (0 < height st) as Hh by lia.
  assert (spins_pm1 st) as Hs.
  { intros i j [Hi Hj]. rewrite Es.
    assert (i = 0 \/ i = 1) as [-> | ->] by lia;
      (assert (j = 0 \/ j = 1) as [-> | ->] by lia); cbn; auto. }
  pose proof (proj2 (invariant_reachable st R)) as Hc.
  destruct (observables_formula_and_bounds st Hw Hh Hs Hc)
    as (HM & Heta & Hb & _).
  repeat (split; [assumption|]).
  split; [|split; [|exact Hb]].
  - rewrite HM, Ew, Eh, Es. reflexivity.
  - rewrite Heta, Ew, Eh, Es, Ex. reflexivity.
Defined.

(** What [update] does to the table and to the accumulators: a row and a
    reset exactly when [frameCounter % averagingFrames == 0]; the row holds
    the accumulated magnetization and the untouched
    [averageOrderParameter]. *)
Lemma update_cadence (st : state) :
  let am :=
    (averageMagnetization st
     + magnetization (update st) / inject_Z (averagingFrames st))%Q in
  if rem_is_zero (frameCounter st) (averagingFrames st) then
    dataTable (update st) =
    dataTable st ++
    [ {| r_temperature := temperature st;
         r_magneticField := magneticField st;
         r_magnetization := am;
         r_orderParameter := averageOrderParameter st |} ] /\
    averageMagnetization (update st) = 0%Q /\
    averageOrderParameter (update st) = 0%Q
  else
    dataTable (update st) = dataTable st /\
    averageMagnetization (update st) = am /\
    averageOrderParameter (update st) = averageOrderParameter st.
Proof.
  unfold update.
  cbn [frameCounter averagingFrames set_observables].
  destruct (rem_is_zero (frameCounter st) (averagingFrames st));
    repeat split.
Qed.

Lemma schedule_fields_iterate (st : state) :
  dataTable (iterate st) = dataTable st /\
  averageOrderParameter (iterate st) = averageOrderParameter st.
Proof. unfold_step. case_ifs; split; reflexivity. Qed.

(** C3 fails on the code.  [update] adds [orderParameter/averagingFrames]
    to the property [averageOrderParamter] (line 920), not to
    [averageOrderParameter]: in every reachable state
    [averageOrderParameter] is 0 and all the rows recorded hold 0 as order
    parameter, whatever the lattice. *)
Theorem order_parameter_never_recorded (st : state) :
  reachable st ->
  averageOrderParameter st = 0%Q /\
  Forall (fun r => r_orderParameter r = 0%Q) (dataTable st).
Proof.
  induction 1 as [settings g g' st E|st st' g g' _ IH E|st _ IH|st _ IH].
  - unfold new_Ising in E. destruct (s_loopMode settings); [|discriminate].
    unfold initialize in E. destruct (fill_lattice _ _ _ g).
    injection E as <- _. split; [reflexivity|constructor].
  - apply Scheduler.trial_frame in E. destruct E as (s & x & ->). exact IH.
  - destruct IH as [Ea Hr]. unfold update.
    destruct (rem_is_zero _ _); cbn; [|now split].
    split; [reflexivity|]. apply Forall_app. split; [exact Hr|].
    constructor; [exact Ea|constructor].
  - destruct (schedule_fields_iterate st) as [-> ->]. exact IH.
Qed.

(** The failing input: one cell with spin +1 and one frame per block.  The
    step has order parameter 1 and completes a block; the row recorded by
    the current revision holds 0, the sum having gone to
    [averageOrderParamter], which is [NaN]; the row recorded by the earlier
    revision holds 1. *)
Lemma order_parameter_never_recorded_witness :
  match new_Ising Examples.one_cell_settings Examples.zeros,
        Examples.one_cell_positional with
  | Ok (st, _), Ok (p, _) =>
      reachable (update st) /\
      (orderParameter (update st) == 1)%Q /\
      map r_orderParameter (dataTable (update st)) = [0%Q] /\
      Forall2 Qeq (map r_magnetization (dataTable (update st))) [1%Q] /\
      averageOrderParamter (update st) = NaN /\
      (IsingPositional.order (IsingPositional.update p) == 1)%Q /\
      Forall2 Qeq
        (map IsingPositional.r_orderParameter
           (IsingPositional.dataTable (IsingPositional.update p))) [1%Q]
  | _, _ => False
  end.
Proof.
  destruct (new_Ising Examples.one_cell_settings Examples.zeros)
    as [[st g]|] eqn:E; [|discriminate].
  destruct Examples.one_cell_positional as [[p g1]|] eqn:Ep;
    [|discriminate].
  assert (reachable (update st)) as R
    by exact (reach_update st (reach_new _ _ _ _ E)).
  destruct (order_parameter_never_recorded (update st) R) as [_ Hrows].
  split; [exact R|].
  vm_compute in E, Ep. injection E as <- _. injection Ep as <- _.
  split; [reflexivity|]. split; [reflexivity|].
  split; [repeat constructor|]. split; [reflexivity|].
  split; [reflexivity|repeat constructor].
Defined.

End Observables.

(** ** The earlier revision *)

Module Positional.
Import Grid GridFacts Ising IsingSpec IsingTactics.

(** [update] computes the same magnetization and order parameter in both
    revisions. *)
Lemma positional_observables (p : IsingPositional.state) (c : state) :
  same_engine p c ->
  IsingPositional.mag (IsingPositional.update p) = magnetization (update c) /\
  IsingPositional.order (IsingPositional.update p) =
  orderParameter (update c).
Proof.
  intros (Ew & Eh & _ & _ & _ & Es & Ex).
  unfold IsingPositional.update, update. rewrite Ew, Eh, Es, Ex.
  destruct (rem_is_zero (IsingPositional.iter p) _);
    destruct (rem_is_zero _ _); split; reflexivity.
Qed.

(** The constructor of the earlier revision checks nothing either: it
    returns for every mode that is a string. *)
Lemma positional_constructor_returns (w h mc b : Z) (rz : bool)
    (t f inc tg : Q) (m : string) (g : Random) :
  exists p g',
    IsingPositional.new_Ising w h mc b rz t f inc tg (Some m) g = Ok (p, g') /\
    IsingPositional.nx p = w /\ IsingPositional.ny p = h /\
    IsingPositional.averagingFrames p = b /\ IsingPositional.temp p = t /\
    IsingPositional.loopMode p = Some m.
Proof.
  unfold IsingPositional.new_Ising.
  destruct (fill_lattice (Z.to_nat w) (Z.to_nat h) rz g) as [s g'].
  do 2 eexists. split; [reflexivity|]. repeat split.
Qed.

(** [update] of the earlier revision: a row and a reset exactly when
    [iter % averagingFrames == 0]; the row holds both accumulated sums. *)
Lemma positional_update_cadence (p : IsingPositional.state) :
  let am :=
    (IsingPositional.averageMag p
     + IsingPositional.mag (IsingPositional.update p)
       / inject_Z (IsingPositional.averagingFrames p))%Q in
  let ao :=
    (IsingPositional.averageOrder p
     + IsingPositional.order (IsingPositional.update p)
       / inject_Z (IsingPositional.averagingFrames p))%Q in
  if rem_is_zero (IsingPositional.iter p) (IsingPositional.averagingFrames p)
  then
    IsingPositional.dataTable (IsingPositional.update p) =
    IsingPositional.dataTable p ++
    [ {| IsingPositional.r_temperature := IsingPositional.temp p;
         IsingPositional.r_field := IsingPositional.hField p;
         IsingPositional.r_magnetization := am;
         IsingPositional.r_orderParameter := ao |} ] /\
    IsingPositional.averageMag (IsingPositional.update p) = 0%Q /\
    IsingPositional.averageOrder (IsingPositional.update p) = 0%Q
  else
    IsingPositional.dataTable (IsingPositional.update p) =
    IsingPositional.dataTable p /\
    IsingPositional.averageMag (IsingPositional.update p) = am /\
    IsingPositional.averageOrder (IsingPositional.update p) = ao.
Proof.
  unfold IsingPositional.update.
  destruct (rem_is_zero (IsingPositional.iter p)
              (IsingPositional.averagingFrames p));
    repeat split.
Qed.

Lemma positional_trial_frame (p p' : IsingPositional.state) (g g' : Random) :
  IsingPositional.trial p g = Ok (p', g') ->
  exists s x, p' = IsingPositional.set_lattice p s x.
Proof.
  assert (p = IsingPositional.set_lattice p (IsingPositional.spin p)
                (IsingPositional.exchangeField p)) as Eta
    by (destruct p; reflexivity).
  unfold IsingPositional.trial. cbn [next].
  destruct (lookup (IsingPositional.spin p) _) as [scol|]; [|discriminate].
  destruct (lookup (IsingPositional.exchangeField p) _) as [xcol|];
    [|discriminate].
  destruct (lookup scol _); [|intros E; injection E as <- _; eauto].
  destruct (lookup xcol _); [|intros E; injection E as <- _; eauto].
  destruct (attempt _ _ _) as [[|] g3]; intros E; injection E as <- _;
    [|eauto].
  unfold IsingPositional.flip. eauto.
Qed.

Lemma positional_trials_frame (n : nat) (p p' : IsingPositional.state)
    (g g' : Random) :
  IsingPositional.trials n p g = Ok (p', g') ->
  exists s x, p' = IsingPositional.set_lattice p s x.
Proof.
  revert p g; induction n as [|n IH]; intros p g; simpl.
  - intros E; injection E as <- _.
    exists (IsingPositional.spin p), (IsingPositional.exchangeField p).
    destruct p; reflexivity.
  - destruct (IsingPositional.trial p g) as [[p1 g1]|] eqn:E1;
      [|discriminate].
    simpl. intros E. apply positional_trial_frame in E1.
    destruct E1 as (s1 & x1 & ->). apply IH in E.
    destruct E as (s & x & ->). exists s, x. reflexivity.
Qed.

(** A frame of the earlier revision leaves the field alone outside the
    field modes and the temperature alone outside the temperature modes. *)
Lemma positional_one_active_parameter (p p' : IsingPositional.state)
    (g g' : Random) :
  IsingPositional.simulationStep p g = Ok (p', g') ->
  IsingPositional.loopMode p' = IsingPositional.loopMode p /\
  (IsingPositional.mode_is p "HLOOP" = false ->
   IsingPositional.mode_is p "HSWEEP" = false ->
   IsingPositional.hField p' = IsingPositional.hField p) /\
  (IsingPositional.mode_is p "TLOOP" = false ->
   IsingPositional.mode_is p "TSWEEP" = false ->
   IsingPositional.temp p' = IsingPositional.temp p).
Proof.
  unfold IsingPositional.simulationStep, IsingPositional.metropolis.
  destruct (IsingPositional.trials _ p g) as [[p1 g1]|] eqn:E1;
    [|discriminate].
  simpl. intros E; injection E as <- _.
  apply positional_trials_frame in E1. destruct E1 as (s & x & ->).
  unfold IsingPositional.mode_is.
  unfold IsingPositional.iterate, IsingPositional.update,
    IsingPositional.terminate, IsingPositional.increment,
    IsingPositional.exitCondition, IsingPositional.step_temp,
    IsingPositional.step_hField, IsingPositional.turn_back,
    IsingPositional.mode_is.
  cbn [IsingPositional.iter IsingPositional.averagingFrames
       IsingPositional.set_lattice IsingPositional.set_observables].
  destruct (rem_is_zero (IsingPositional.iter p)
              (IsingPositional.averagingFrames p));
    cbn [IsingPositional.nx IsingPositional.ny IsingPositional.mcSteps
         IsingPositional.averagingFrames IsingPositional.temp
         IsingPositional.hField IsingPositional.step
         IsingPositional.finalValue IsingPositional.loopMode
         IsingPositional.iter IsingPositional.dataTable
         IsingPositional.backward IsingPositional.initialValue
         IsingPositional.looping IsingPositional.set_lattice
         IsingPositional.set_observables IsingPositional.set_schedule];
    (split; [case_ifs; reflexivity|]);
    (split; intros H1 H2; rewrite H1, H2; case_ifs; reflexivity).
Qed.

End Positional.

(** ** Where rounding matters *)

Module Rounding.
Import Grid Ising IsingSpec.

(** C9 as stated fails on doubles: on the 10x10 lattice of spins +1 that
    the constructor builds (all spins in {-1,+1}, exchange field 4
    everywhere, the neighbour sum), the hundred additions of 0.01 give a
    magnetization of 1 + 3 * 2^-52, printed 1.0000000000000007, and the
    order parameter is the same number: both exceed 1. *)
Lemma rounded_observables_exceed_one :
  match new_Ising (Examples.sweep_settings 0 0 false) Examples.zeros with
  | Ok (st, _) =>
      reachable st /\
      width st = 10 /\ height st = 10 /\
      spin st = repeat (repeat 1 10) 10 /\
      exchangeField st = repeat (repeat 4 10) 10 /\
      Float64.magnetization st = 0x1.0000000000003p+0%float /\
      Float64.orderParameter st = 0x1.0000000000003p+0%float /\
      PrimFloat.leb (Float64.magnetization st) 1 = false /\
      PrimFloat.leb (Float64.orderParameter st) 1 = false
  | TypeError => False
  end.
Proof.
  destruct (new_Ising (Examples.sweep_settings 0 0 false) Examples.zeros)
    as [[st g]|] eqn:E; [|discriminate].
  split; [exact (reach_new _ _ _ _ E)|].
  vm_compute in E. injection E as <- _. vm_compute. repeat split.
Qed.

(** In the sweep of the scenario the exit test has the same outcome on
    doubles as on rationals: false after 0 to 4 additions of -0.1 to 1.0,
    true after the fifth. *)
Lemma sweep_tests_on_doubles :
  map (fun k => Float64.near (Float64.stepped k 1 (- (1 / 10))) (1 / 2))
    [0; 1; 2; 3; 4; 5]%nat
  = [false; false; false; false; false; true].
Proof. vm_compute. reflexivity. Qed.

End Rounding.

(** ** The lattice along a run *)

Module Lattice.
Import Grid GridFacts Ising IsingSpec IsingTactics.
Import CacheInvariant Metropolis Scheduler Runs.

Lemma lookup_In {A : Type} (l : list A) (i : Z) (v : A) :
  lookup l i = Some v -> In v l.
Proof.
  unfold lookup. destruct (i <? 0); [discriminate|]. apply nth_error_In.
Qed.

(** A property of every entry of a well-shaped array holds of what [get]
    reads inside it. *)
Lemma get_Forall (P : Z -> Prop) (w h : Z) (g : Grid.t) (i j : Z) :
  shaped w h g -> Forall (Forall P) g -> inside w h i j -> P (get g i j).
Proof.
  intros Hs HP Hin.
  destruct (shaped_cell w h g i j Hs Hin) as (col & v & Ei & Ej).
  unfold get. rewrite Ei, Ej.
  rewrite Forall_forall in HP. specialize (HP col (lookup_In _ _ _ Ei)).
  rewrite Forall_forall in HP. exact (HP v (lookup_In _ _ _ Ej)).
Qed.

Lemma initial_spin_pm1 (r : bool) (g : Random) :
  uniform g ->
  fst (initial_spin r g) = 1 \/ fst (initial_spin r g) = -1.
Proof.
  intros Hg. unfold initial_spin. destruct r; [|now left].
  cbn [next fst].
  pose proof (floor_scaled_range 2 (g 0%nat) ltac:(lia) (Hg 0%nat)) as Hf.
  change (inject_Z 2) with 2%Q in Hf.
  assert (Qfloor (2 * g 0%nat) = 0 \/ Qfloor (2 * g 0%nat) = 1) as [-> | ->]
    by lia; [now right|now left].
Qed.

Lemma fill_column_pm1 (h : nat) (r : bool) (g : Random) :
  uniform g ->
  Forall (fun s => s = 1 \/ s = -1) (fst (fill_column h r g)).
Proof.
  revert g; induction h as [|h IH]; intros g Hg; simpl; [constructor|].
  pose proof (initial_spin_pm1 r g Hg) as H1.
  assert (uniform (snd (initial_spin r g))) as H2.
  { unfold initial_spin. destruct r; [now apply uniform_next|exact Hg]. }
  destruct (initial_spin r g) as [s g1]. specialize (IH g1 H2).
  destruct (fill_column h r g1). simpl in *. now constructor.
Qed.

Lemma fill_lattice_pm1 (w h : nat) (r : bool) (g : Random) :
  uniform g ->
  Forall (Forall (fun s => s = 1 \/ s = -1)) (fst (fill_lattice w h r g)).
Proof.
  revert g; induction w as [|w IH]; intros g Hg; simpl; [constructor|].
  pose proof (fill_column_pm1 h r g Hg) as H1.
  pose proof (uniform_fill_column h r g Hg) as H2.
  destruct (fill_column h r g) as [col g1]. specialize (IH g1 H2).
  destruct (fill_lattice w h r g1). simpl in *. now constructor.
Qed.

Lemma new_Ising_pm1 (settings : Settings) (g g' : Random) (st : state) :
  uniform g -> new_Ising settings g = Ok (st, g') -> spins_pm1 st.
Proof.
  intros Hg E. unfold new_Ising in E.
  destruct (s_loopMode settings); [|discriminate].
  unfold initialize in E. cbn [width height randomizeLattice] in E.
  pose proof (fill_lattice_pm1 (Z.to_nat (s_width settings))
                (Z.to_nat (s_height settings))
                (s_randomizeLattice settings) g Hg) as HP.
  pose proof (shaped_fill_lattice (s_width settings) (s_height settings)
                (s_randomizeLattice settings) g) as Hs.
  destruct (fill_lattice _ _ _ g) as [s0 g1].
  injection E as <- _. intros i j Hin. cbn in *.
  exact (get_Forall _ _ _ _ _ _ Hs HP Hin).
Qed.

(** A trial keeps the spins in {-1,+1}. *)
Lemma trial_pm1 (st st' : state) (g g' : Random) :
  well_shaped st /\ spins_pm1 st -> trial st g = Ok (st', g') ->
  well_shaped st' /\ spins_pm1 st'.
Proof.
  intros [Hs Hp] E. unfold trial in E. cbn [next] in E.
  set (i := Qfloor _) in E. set (j := Qfloor _) in E.
  destruct (lookup (spin st) i) as [scol|] eqn:Ei; [|discriminate].
  destruct (lookup (exchangeField st) i) as [xcol|]; [|discriminate].
  destruct (lookup scol j) as [s|] eqn:Ej;
    [|injection E as <- _; now split].
  destruct (lookup xcol j) as [x|]; [|injection E as <- _; now split].
  destruct (attempt _ _ _) as [[|] g3]; injection E as <- _;
    [|now split].
  pose proof (cell_inside _ _ _ _ _ _ _ (proj1 Hs) Ei Ej) as Hin.
  split; [now apply well_shaped_flip|].
  intros a b Hab. unfold flip in *. cbn [spin width height set_lattice] in *.
  rewrite (get_set (width st) (height st)) by (try apply Hs; assumption).
  destruct ((a =? i) && (b =? j)); [|now apply Hp].
  destruct (Hp i j Hin) as [-> | ->]; [now right|now left].
Qed.

(** What a trial, [update] and [iterate] keep holds after any number of
    frames. *)
Lemma frames_keep (P : state -> Prop) :
  (forall st g st' g', P st -> trial st g = Ok (st', g') -> P st') ->
  (forall st, P st -> P (update st)) ->
  (forall st, P st -> P (iterate st)) ->
  forall n st g st' g', P st -> frames n st g = Ok (st', g') -> P st'.
Proof.
  intros Ht Hu Hi.
  assert (forall k st g st' g',
            P st -> trials k st g = Ok (st', g') -> P st') as Hts.
  { induction k as [|k IH]; intros st g st' g' HP; simpl.
    - intros E; injection E as <- _. exact HP.
    - destruct (trial st g) as [[st1 g1]|] eqn:E1; [|discriminate].
      simpl. apply IH. exact (Ht _ _ _ _ HP E1). }
  induction n as [|n IH]; intros st g st' g' HP; simpl.
  - intros E; injection E as <- _. exact HP.
  - destruct (looping st); [|intros E; injection E as <- _; exact HP].
    unfold draw, simulationStep, metropolis.
    destruct (trials _ st g) as [[st1 g1]|] eqn:E1; [|discriminate].
    simpl. apply IH. apply Hi, Hu. exact (Hts _ _ _ _ _ HP E1).
Qed.

Lemma same_lattice_pm1 (st st' : state) :
  width st' = width st /\ height st' = height st /\
  spin st' = spin st /\ exchangeField st' = exchangeField st ->
  well_shaped st /\ spins_pm1 st -> well_shaped st' /\ spins_pm1 st'.
Proof.
  intros (Ew & Eh & Es & Ex) [Hs Hp].
  unfold well_shaped, spins_pm1 in *. rewrite Ew, Eh, Es, Ex. now split.
Qed.

(** After the constructor and any number of frames, with draws in [0,1):
    the arrays are well shaped, the spins are -1 or +1 and the state is
    reachable. *)
Lemma sketch_lattice (settings : Settings) (n : nat) (g g' : Random)
    (st : state) :
  uniform g -> sketch settings n g = Ok (st, g') ->
  well_shaped st /\ spins_pm1 st /\ reachable st.
Proof.
  intros Hg. unfold sketch.
  destruct (new_Ising settings g) as [[st0 g0]|] eqn:E0; [|discriminate].
  simpl. intros E.
  assert ((well_shaped st0 /\ spins_pm1 st0) /\ reachable st0) as H0.
  { pose proof (reach_new _ _ _ _ E0) as R. split; [|exact R].
    split; [exact (proj1 (invariant_reachable _ R))|].
    exact (new_Ising_pm1 _ _ _ _ Hg E0). }
  pose proof (frames_keep
                (fun s => (well_shaped s /\ spins_pm1 s) /\ reachable s))
    as K.
  destruct (K ltac:(intros s1 g1 s2 g2 [H1 R] Et; split;
                      [exact (trial_pm1 _ _ _ _ H1 Et)
                      |exact (reach_trial _ _ _ _ R Et)])
              ltac:(intros s1 [H1 R]; split;
                      [exact (same_lattice_pm1 _ _ (lattice_update s1) H1)
                      |exact (reach_update _ R)])
              ltac:(intros s1 [H1 R]; split;
                      [exact (same_lattice_pm1 _ _ (lattice_iterate s1) H1)
                      |exact (reach_iterate _ R)])
              n st0 g0 st g' H0 E) as [[Hs Hp] R].
  auto.
Qed.

(** X1.  After the constructor and any number of frames, with every value
    of [Math.random()] in [0,1), every spin of the lattice is -1 or +1. *)
Theorem spins_stay_pm1 (settings : Settings) (n : nat) (g g' : Random)
    (st : state) (i j : Z) :
  uniform g -> sketch settings n g = Ok (st, g') ->
  0 <= i < width st -> 0 <= j < height st ->
  get (spin st) i j = 1 \/ get (spin st) i j = -1.
Proof.
  intros Hg E Hi Hj. destruct (sketch_lattice _ _ _ _ _ Hg E) as (_ & Hp & _).
  apply Hp. now split.
Qed.

Lemma spins_stay_pm1_witness :
  uniform Examples.zeros /\
  match sketch Examples.small_settings 1 Examples.zeros with
  | Ok (st, _) =>
      spin st = [[-1; 1]; [1; 1]] /\
      (get (spin st) 0 0 = 1 \/ get (spin st) 0 0 = -1)
  | TypeError => False
  end.
Proof.
  split; [exact uniform_zeros|].
  destruct (sketch Examples.small_settings 1 Examples.zeros)
    as [[st g]|] eqn:E; [|vm_compute in E; discriminate].
  assert (spin st = [[-1; 1]; [1; 1]] /\ width st = 2 /\ height st = 2)
    as (Es & Ew & Eh)
    by (vm_compute in E; injection E as <- _; repeat split).
  split; [exact Es|].
  apply (spins_stay_pm1 _ _ _ _ _ 0 0 uniform_zeros E); lia.
Defined.

(** The exchange field of a lattice of spins -1 or +1 takes the values
    -4, -2, 0, 2 and 4. *)
Lemma neighbour_sum_values (st : state) (i j : Z) :
  spins_pm1 st -> cache_ok st -> inside (width st) (height st) i j ->
  In (get (exchangeField st) i j) [-4; -2; 0; 2; 4].
Proof.
  intros Hs Hc Hin. rewrite (Hc i j Hin). unfold neighbourSum.
  destruct Hin as [Hi Hj].
  assert (0 < width st) as Hw by lia. assert (0 < height st) as Hh by lia.
  pose proof (Z.mod_pos_bound (i + 1) (width st) Hw) as B1.
  pose proof (Z.mod_pos_bound (i - 1 + width st) (width st) Hw) as B2.
  pose proof (Z.mod_pos_bound (j + 1) (height st) Hh) as B3.
  pose proof (Z.mod_pos_bound (j - 1 + height st) (height st) Hh) as B4.
  pose proof (Hs ((i + 1) mod width st) j (conj B1 Hj)) as S1.
  pose proof (Hs ((i - 1 + width st) mod width st) j (conj B2 Hj)) as S2.
  pose proof (Hs i ((j + 1) mod height st) (conj Hi B3)) as S3.
  pose proof (Hs i ((j - 1 + height st) mod height st) (conj Hi B4)) as S4.
  destruct S1 as [E1|E1], S2 as [E2|E2], S3 as [E3|E3], S4 as [E4|E4];
    rewrite E1, E2, E3, E4; cbn; tauto.
Qed.

(** X2.  After the constructor and any number of frames, with draws in
    [0,1), every entry of [exchangeField] is one of -4, -2, 0, 2, 4. *)
Theorem exchangeField_values (settings : Settings) (n : nat)
    (g g' : Random) (st : state) (i j : Z) :
  uniform g -> sketch settings n g = Ok (st, g') ->
  0 <= i < width st -> 0 <= j < height st ->
  In (get (exchangeField st) i j) [-4; -2; 0; 2; 4].
Proof.
  intros Hg E Hi Hj. destruct (sketch_lattice _ _ _ _ _ Hg E) as (_ & Hp & R).
  apply neighbour_sum_values; [exact Hp| |now split].
  exact (proj2 (invariant_reachable st R)).
Qed.

Lemma exchangeField_values_witness :
  uniform Examples.zeros /\
  match sketch Examples.small_settings 1 Examples.zeros with
  | Ok (st, _) =>
      exchangeField st = [[4; 0]; [0; 4]] /\
      In (get (exchangeField st) 1 0) [-4; -2; 0; 2; 4]
  | TypeError => False
  end.
Proof.
  split; [exact uniform_zeros|].
  destruct (sketch Examples.small_settings 1 Examples.zeros)
    as [[st g]|] eqn:E; [|vm_compute in E; discriminate].
  assert (exchangeField st = [[4; 0]; [0; 4]] /\ width st = 2 /\
          height st = 2) as (Ex & Ew & Eh)
    by (vm_compute in E; injection E as <- _; repeat split).
  split; [exact Ex|].
  apply (exchangeField_values _ _ _ _ _ 1 0 uniform_zeros E); lia.
Defined.

(** Two well-shaped arrays with the same entries are the same array. *)
Lemma grid_ext (w h : Z) (g g' : Grid.t) :
  shaped w h g -> shaped w h g' ->
  (forall i j, inside w h i j -> get g i j = get g' i j) -> g = g'.
Proof.
  intros [L C] [L' C'] Hget.
  apply (nth_ext g g' [] []); [congruence|].
  intros a Ha.
  assert (In (nth a g []) g) as I1 by (apply nth_In; exact Ha).
  assert (In (nth a g' []) g') as I2 by (apply nth_In; lia).
  rewrite Forall_forall in C, C'.
  pose proof (C _ I1) as Lc. pose proof (C' _ I2) as Lc'.
  apply (nth_ext _ _ 0 0); [congruence|].
  intros b Hb.
  assert (inside w h (Z.of_nat a) (Z.of_nat b)) as Hin by (split; lia).
  specialize (Hget _ _ Hin). unfold get, lookup in Hget.
  destruct (Z.ltb_spec (Z.of_nat a) 0); [lia|].
  destruct (Z.ltb_spec (Z.of_nat b) 0); [lia|].
  rewrite !Nat2Z.id in Hget.
  rewrite (nth_error_nth' g [] Ha) in Hget.
  rewrite (nth_error_nth' g' []) in Hget by lia.
  rewrite (nth_error_nth' (nth a g []) 0 Hb) in Hget.
  rewrite (nth_error_nth' (nth a g' []) 0) in Hget by lia.
  exact Hget.
Qed.

(** The exchange field after a flip: twice the new spin is added once for
    every way in which the cell is a neighbour of [(i,j)]. *)
Lemma get_exchangeField_flip (st : state) (i j a b : Z) :
  well_shaped st -> inside (width st) (height st) i j ->
  get (exchangeField (flip st i j)) a b =
  get (exchangeField st) a b
  + 2 * - get (spin st) i j
    * (Z.b2z ((a =? Z.rem (i + 1) (width st)) && (b =? j))
       + Z.b2z ((a =? Z.rem (i - 1 + width st) (width st)) && (b =? j))
       + Z.b2z ((a =? i) && (b =? Z.rem (j + 1) (height st)))
       + Z.b2z ((a =? i) && (b =? Z.rem (j - 1 + height st) (height st)))).
Proof.
  intros [Hss Hsx] Hin. pose proof Hin as [Hi Hj].
  pose proof (rem_succ_range _ _ Hi). pose proof (rem_pred_range _ _ Hi).
  pose proof (rem_succ_range _ _ Hj). pose proof (rem_pred_range _ _ Hj).
  unfold flip. cbn [spin exchangeField width height set_lattice].
  set (W := width st) in *. set (H' := height st) in *.
  rewrite !(get_add W H');
    try (unfold add; repeat apply shaped_modify; assumption);
    try (split; assumption).
  rewrite Revisions.get_negated_cell.
  destruct ((a =? Z.rem (i + 1) W) && (b =? j)),
    ((a =? Z.rem (i - 1 + W) W) && (b =? j)),
    ((a =? i) && (b =? Z.rem (j + 1) H')),
    ((a =? i) && (b =? Z.rem (j - 1 + H') H')); cbn [Z.b2z]; lia.
Qed.

Lemma get_spin_flip (st : state) (i j a b : Z) :
  well_shaped st -> inside (width st) (height st) i j ->
  get (spin (flip st i j)) a b =
  if (a =? i) && (b =? j) then - get (spin st) i j else get (spin st) a b.
Proof.
  intros [Hss _] Hin. unfold flip. cbn [spin set_lattice].
  now rewrite (get_set (width st) (height st)).
Qed.

(** X3.  Flipping the same cell twice restores the spins and the exchange
    field. *)
Theorem flip_twice (st : state) (i j : Z) :
  well_shaped st -> 0 <= i < width st -> 0 <= j < height st ->
  spin (flip (flip st i j) i j) = spin st /\
  exchangeField (flip (flip st i j) i j) = exchangeField st.
Proof.
  intros Hs Hi Hj.
  assert (inside (width st) (height st) i j) as Hin by now split.
  pose proof (well_shaped_flip st i j Hs) as Hs1.
  pose proof (well_shaped_flip (flip st i j) i j Hs1) as Hs2.
  assert (inside (width (flip st i j)) (height (flip st i j)) i j) as Hin1
    by exact Hin.
  assert (get (spin (flip st i j)) i j = - get (spin st) i j) as Eneg
    by (rewrite get_spin_flip by assumption; now rewrite !Z.eqb_refl).
  split; apply (grid_ext (width st) (height st));
    try apply Hs; try apply Hs2; intros a b Hab.
  - rewrite get_spin_flip by assumption. rewrite Eneg.
    rewrite get_spin_flip by assumption.
    destruct ((a =? i) && (b =? j)) eqn:Eab; [|reflexivity].
    apply andb_prop in Eab. destruct Eab as [Ea Eb].
    apply Z.eqb_eq in Ea, Eb. subst. lia.
  - rewrite get_exchangeField_flip by assumption. rewrite Eneg.
    rewrite get_exchangeField_flip by assumption.
    change (width (flip st i j)) with (width st).
    change (height (flip st i j)) with (height st). lia.
Qed.

Lemma flip_twice_witness :
  match new_Ising Examples.small_settings Examples.zeros with
  | Ok (st, _) =>
      well_shaped st /\ spin (flip st 1 0) = [[1; 1]; [-1; 1]] /\
      spin (flip (flip st 1 0) 1 0) = spin st /\
      exchangeField (flip (flip st 1 0) 1 0) = exchangeField st
  | TypeError => False
  end.
Proof.
  destruct (new_Ising Examples.small_settings Examples.zeros)
    as [[st g]|] eqn:E; [|discriminate].
  pose proof (proj1 (invariant_reachable st (reach_new _ _ _ _ E))) as Hs.
  assert (width st = 2 /\ height st = 2 /\
          spin (flip st 1 0) = [[1; 1]; [-1; 1]]) as (Ew & Eh & Ef)
    by (vm_compute in E; injection E as <- _; repeat split).
  split; [exact Hs|]. split; [exact Ef|].
  apply (flip_twice st 1 0 Hs); lia.
Defined.

End Lattice.

(** ** The energy and the trial *)

Module Energy.
Import Grid GridFacts Ising IsingSpec IsingTactics Physics.
Import CacheInvariant Metropolis Lattice.

Lemma sum_seq_pick (K : Z -> Z) (q : Z) (s len : nat) :
  fold_right Z.add 0
    (map (fun b => Z.b2z (b =? q) * K b) (map Z.of_nat (seq s len))) =
  if (Z.of_nat s <=? q) && (q <? Z.of_nat (s + len)) then K q else 0.
Proof.
  revert s; induction len as [|len IH]; intros s; simpl.
  - destruct (Z.leb_spec (Z.of_nat s) q), (Z.ltb_spec q (Z.of_nat (s + 0)));
      simpl; try reflexivity; lia.
  - rewrite IH.
    destruct (Z.eqb_spec (Z.of_nat s) q) as [<-|Ne];
      destruct (Z.leb_spec (Z.of_nat (S s)) (Z.of_nat s));
      destruct (Z.ltb_spec (Z.of_nat s) (Z.of_nat (S s + len)));
      destruct (Z.leb_spec (Z.of_nat s) (Z.of_nat s));
      destruct (Z.ltb_spec (Z.of_nat s) (Z.of_nat (s + S len)));
      cbn [andb Z.b2z]; try lia.
    destruct (Z.leb_spec (Z.of_nat (S s)) q),
      (Z.ltb_spec q (Z.of_nat (S s + len))),
      (Z.leb_spec (Z.of_nat s) q),
      (Z.ltb_spec q (Z.of_nat (s + S len)));
      cbn [andb Z.b2z]; lia.
Qed.

Lemma sum_range_pick (K : Z -> Z) (n q : Z) :
  0 <= q < n ->
  fold_right Z.add 0 (map (fun b => Z.b2z (b =? q) * K b) (range n)) = K q.
Proof.
  intros Hq. unfold range. rewrite sum_seq_pick.
  destruct (Z.leb_spec (Z.of_nat 0) q), (Z.ltb_spec q (Z.of_nat (0 + Z.to_nat n)));
    cbn [andb]; try reflexivity; lia.
Qed.

Lemma sum_list_ext (f g : Z -> Z) (l : list Z) :
  (forall k, In k l -> f k = g k) ->
  fold_right Z.add 0 (map f l) = fold_right Z.add 0 (map g l).
Proof.
  induction l as [|k l IH]; intros H; simpl; [reflexivity|].
  rewrite (H k (or_introl eq_refl)), IH; [reflexivity|].
  intros k' Hk. apply H. now right.
Qed.

Lemma sum_list_add (f g : Z -> Z) (l : list Z) :
  fold_right Z.add 0 (map (fun k => f k + g k) l) =
  fold_right Z.add 0 (map f l) + fold_right Z.add 0 (map g l).
Proof. induction l as [|k l IH]; simpl; lia. Qed.

Lemma sum_list_zero (l : list Z) :
  fold_right Z.add 0 (map (fun _ => 0) l) = 0.
Proof. induction l as [|k l IH]; simpl; lia. Qed.

Lemma total_ext (w h : Z) (f g : Z -> Z -> Z) :
  (forall a b, inside w h a b -> f a b = g a b) ->
  total w h f = total w h g.
Proof.
  intros H. unfold total. apply sum_list_ext. intros a Ha.
  apply sum_list_ext. intros b Hb.
  apply H. split; now apply Observables.in_range.
Qed.

(** Adding [K] at the single cell [(p,q)] adds [K p q] to the sum. *)
Lemma total_pick_add (w h p q : Z) (F K : Z -> Z -> Z) :
  inside w h p q ->
  total w h (fun a b => F a b + Z.b2z ((a =? p) && (b =? q)) * K a b) =
  total w h F + K p q.
Proof.
  intros [Hp Hq]. unfold total.
  rewrite <- (sum_range_pick (fun a => K a q) w p Hp), <- sum_list_add.
  apply sum_list_ext. intros a _. rewrite sum_list_add. f_equal.
  destruct (a =? p); cbn [andb Z.b2z].
  - rewrite Z.mul_1_l. rewrite <- (sum_range_pick (K a) h q Hq).
    apply sum_list_ext. intros b _. reflexivity.
  - rewrite Z.mul_0_l. apply sum_list_zero.
Qed.

(** The neighbour sum after a flip, at a cell of the lattice. *)
Lemma neighbourSum_flip (st : state) (i j a b : Z) :
  well_shaped st -> inside (width st) (height st) i j ->
  inside (width st) (height st) a b ->
  neighbourSum (width st) (height st) (spin (flip st i j)) a b =
  neighbourSum (width st) (height st) (spin st) a b
  + 2 * - get (spin st) i j
    * (Z.b2z ((a =? Z.rem (i - 1 + width st) (width st)) && (b =? j))
       + Z.b2z ((a =? Z.rem (i + 1) (width st)) && (b =? j))
       + Z.b2z ((a =? i) && (b =? Z.rem (j - 1 + height st) (height st)))
       + Z.b2z ((a =? i) && (b =? Z.rem (j + 1) (height st)))).
Proof.
  intros [Hss _] Hin Hab. pose proof Hin as [Hi Hj].
  pose proof Hab as [Ha Hb].
  unfold neighbourSum, flip. cbn [spin set_lattice].
  set (W := width st) in *. set (H' := height st) in *.
  rewrite !mod_succ, !mod_pred by assumption.
  rewrite !(get_negated W H') by assumption.
  rewrite (right_is_left W a i), (left_is_right W a i) by assumption.
  rewrite (right_is_left H' b j), (left_is_right H' b j) by assumption.
  destruct ((a =? Z.rem (i - 1 + W) W) && (b =? j)),
    ((a =? Z.rem (i + 1) W) && (b =? j)),
    ((a =? i) && (b =? Z.rem (j - 1 + H') H')),
    ((a =? i) && (b =? Z.rem (j + 1) H')); cbn [Z.b2z]; lia.
Qed.

(** On a lattice with at least two columns and two rows no cell is its own
    neighbour. *)
Lemma not_own_neighbour (w i : Z) :
  2 <= w -> 0 <= i < w ->
  (i =? Z.rem (i + 1) w) = false /\ (i =? Z.rem (i - 1 + w) w) = false.
Proof.
  intros Hw Hi.
  pose proof (rem_succ w i Hi) as E1. pose proof (rem_pred w i Hi) as E2.
  destruct (Z.eqb_spec (i + 1) w), (Z.eqb_spec i 0); split;
    apply Z.eqb_neq; lia.
Qed.

(** The sums of the energy after a flip. *)
Lemma sums_after_flip (st : state) (i j : Z) :
  well_shaped st -> 2 <= width st -> 2 <= height st ->
  inside (width st) (height st) i j ->
  total (width st) (height st) (get (spin (flip st i j))) =
  total (width st) (height st) (get (spin st)) + 2 * - get (spin st) i j /\
  pair_sum (flip st i j) =
  pair_sum st
  + 2 * (2 * - get (spin st) i j)
    * neighbourSum (width st) (height st) (spin st) i j.
Proof.
  intros Hs Hw Hh Hin. pose proof Hin as [Hi Hj].
  pose proof (rem_succ_range _ _ Hi) as R1.
  pose proof (rem_pred_range _ _ Hi) as R2.
  pose proof (rem_succ_range _ _ Hj) as R3.
  pose proof (rem_pred_range _ _ Hj) as R4.
  set (W := width st) in *. set (H' := height st) in *.
  set (d := 2 * - get (spin st) i j).
  split.
  - rewrite (total_ext W H' _
               (fun a b => get (spin st) a b
                           + Z.b2z ((a =? i) && (b =? j)) * d)).
    + now rewrite (total_pick_add W H' i j _ (fun _ _ => d)).
    + intros a b Hab. unfold flip. cbn [spin set_lattice].
      rewrite (get_negated W H') by (try apply Hs; assumption).
      destruct ((a =? i) && (b =? j)); cbn [Z.b2z]; unfold d; lia.
  - unfold pair_sum. change (width (flip st i j)) with W.
    change (height (flip st i j)) with H'.
    rewrite (total_ext W H' _
      (fun a b =>
         get (spin st) a b * neighbourSum W H' (spin st) a b
         + Z.b2z ((a =? Z.rem (i - 1 + W) W) && (b =? j))
           * (d * get (spin st) a b)
         + Z.b2z ((a =? Z.rem (i + 1) W) && (b =? j))
           * (d * get (spin st) a b)
         + Z.b2z ((a =? i) && (b =? Z.rem (j - 1 + H') H'))
           * (d * get (spin st) a b)
         + Z.b2z ((a =? i) && (b =? Z.rem (j + 1) H'))
           * (d * get (spin st) a b)
         + Z.b2z ((a =? i) && (b =? j))
           * (d * neighbourSum W H' (spin (flip st i j)) a b))).
    + rewrite !total_pick_add by (split; assumption).
      pose proof (neighbourSum_flip st i j i j Hs Hin Hin) as EN0.
      fold W H' d in EN0. rewrite EN0.
      destruct (not_own_neighbour W i Hw Hi) as [N1 N2].
      destruct (not_own_neighbour H' j Hh Hj) as [N3 N4].
      rewrite N1, N2, N3, N4, !andb_false_r. cbn [andb Z.b2z].
      assert (neighbourSum W H' (spin st) i j =
              get (spin st) (Z.rem (i + 1) W) j
              + get (spin st) (Z.rem (i - 1 + W) W) j
              + get (spin st) i (Z.rem (j + 1) H')
              + get (spin st) i (Z.rem (j - 1 + H') H')) as EN1
        by (unfold neighbourSum;
            now rewrite !mod_succ, !mod_pred by assumption).
      rewrite EN1. subst W H' d. ring.
    + intros a b Hab.
      pose proof (neighbourSum_flip st i j a b Hs Hin Hab) as EN.
      fold W H' d in EN.
      assert (get (spin (flip st i j)) a b =
              get (spin st) a b + Z.b2z ((a =? i) && (b =? j)) * d) as ES.
      { unfold flip. cbn [spin set_lattice].
        rewrite (get_negated W H') by (try apply Hs; assumption).
        destruct ((a =? i) && (b =? j)); cbn [Z.b2z]; unfold d; lia. }
      rewrite ES. revert EN.
      generalize (neighbourSum W H' (spin (flip st i j)) a b) as N'.
      intros N' ->.
      ring.
Qed.

(** What flipping the spin of cell [(i,j)] releases:
    [deltaE = - 2 s_i (h_i + h)] is the energy before the flip minus
    the energy after it. *)
Lemma energy_released (st : state) (i j : Z) :
  well_shaped st -> cache_ok st -> 2 <= width st -> 2 <= height st ->
  inside (width st) (height st) i j ->
  (energy st - energy (flip st i j) ==
   deltaE (get (spin st) i j) (get (exchangeField st) i j)
     (magneticField st))%Q.
Proof.
  intros Hs Hc Hw Hh Hin.
  destruct (sums_after_flip st i j Hs Hw Hh Hin) as [ET EP].
  unfold energy, deltaE.
  change (width (flip st i j)) with (width st).
  change (height (flip st i j)) with (height st).
  change (magneticField (flip st i j)) with (magneticField st).
  rewrite ET, EP, (Hc i j Hin).
  rewrite !inject_Z_plus, !inject_Z_mult, !inject_Z_opp. field.
Qed.

(** The acceptance test at a temperature of 0 and below. *)
Lemma attempt_cold (dE t : Q) (g : Random) :
  (0 <= g 0%nat /\ g 0%nat < 1)%Q ->
  ((t == 0)%Q -> fst (attempt dE t g) = Qle_bool 0 dE) /\
  ((t < 0)%Q -> fst (attempt dE t g) = true).
Proof.
  intros [H0 H1]. unfold attempt.
  destruct (Qle_bool 0 dE) eqn:Ed; [split; reflexivity|].
  assert (dE < 0)%Q as Hd.
  { apply Qnot_le_lt. intros Hle. apply Qle_bool_iff in Hle. congruence. }
  cbn [next fst]. unfold lt_exp_quot. split.
  - intros Et. rewrite (proj2 (Qeq_bool_iff t 0) Et).
    unfold ltb. apply negb_false_iff. now apply Qle_bool_iff.
  - intros Ht. destruct (Qeq_bool t 0) eqn:Et.
    { apply Qeq_bool_eq in Et. rewrite Et in Ht. discriminate. }
    rewrite Q2R_div by (intros E; rewrite E in Ht; discriminate).
    assert (Q2R dE < 0)%R as Hd'
      by (rewrite <- RMicromega.Q2R_0; now apply Qlt_Rlt).
    assert (Q2R t < 0)%R as Ht'
      by (rewrite <- RMicromega.Q2R_0; now apply Qlt_Rlt).
    assert (Q2R (g 0%nat) < 1)%R as H1'
      by (rewrite <- RMicromega.Q2R_1; now apply Qlt_Rlt).
    assert (0 < Q2R dE / Q2R t)%R as Hq.
    { unfold Rdiv. pose proof (Rinv_neg _ Ht'). nra. }
    pose proof (exp_increasing _ _ Hq) as He. rewrite exp_0 in He.
    destruct (Rlt_dec _ _) as [|N]; [reflexivity|]. exfalso. apply N. lra.
Qed.

(** The outcome of a trial on a lattice of positive size, in terms of the
    acceptance test. *)
Lemma trial_outcome (st st' : state) (g g' : Random) :
  well_shaped st -> 0 < width st -> 0 < height st -> uniform g ->
  trial st g = Ok (st', g') ->
  let i := Qfloor (inject_Z (width st) * g 0%nat) in
  let j := Qfloor (inject_Z (height st) * g 1%nat) in
  let dE :=
    deltaE (get (spin st) i j) (get (exchangeField st) i j)
      (magneticField st) in
  inside (width st) (height st) i j /\
  st' = if fst (attempt dE (temperature st) (skip 2 g))
        then flip st i j else st.
Proof.
  intros Hs Hw Hh Hg E i j dE.
  destruct (trial_inside st g Hs Hw Hh Hg) as [Hin Et].
  split; [exact Hin|]. rewrite Et in E. now injection E as <- _.
Qed.

(** X4.  On a lattice with at least two columns and two rows whose exchange
    field is the neighbour sum, a trial either leaves the engine as it is
    or flips the chosen cell, and then [deltaE] is exactly the energy
    [H(S)] before the flip minus the energy after it. *)
Theorem trial_releases_deltaE (st st' : state) (g g' : Random) :
  well_shaped st -> cache_ok st -> 2 <= width st -> 2 <= height st ->
  uniform g -> trial st g = Ok (st', g') ->
  let i := Qfloor (inject_Z (width st) * g 0%nat) in
  let j := Qfloor (inject_Z (height st) * g 1%nat) in
  st' = st \/
  (st' = flip st i j /\
   (energy st - energy st' ==
    - (2) * inject_Z (get (spin st) i j)
    * (inject_Z (get (exchangeField st) i j) + magneticField st))%Q).
Proof.
  intros Hs Hc Hw Hh Hg E i j.
  destruct (trial_outcome st st' g g' Hs ltac:(lia) ltac:(lia) Hg E)
    as [Hin Est].
  fold i j in Hin, Est. destruct (fst (attempt _ _ _)); [|now left].
  right. split; [exact Est|]. rewrite Est.
  exact (energy_released st i j Hs Hc Hw Hh Hin).
Qed.

Lemma trial_releases_deltaE_witness :
  match new_Ising Examples.small_settings Examples.zeros with
  | Ok (st, _) =>
      well_shaped st /\ cache_ok st /\ uniform Examples.zeros /\
      (energy st == 12)%Q /\ (energy (flip st 0 0) == 10)%Q /\
      trial st Examples.zeros = Ok (flip st 0 0, skip 2 Examples.zeros) /\
      (energy st - energy (flip st 0 0) == 2)%Q
  | TypeError => False
  end.
Proof.
  destruct (new_Ising Examples.small_settings Examples.zeros)
    as [[st g]|] eqn:E; [|discriminate].
  destruct (invariant_reachable st (reach_new _ _ _ _ E)) as [Hs Hc].
  assert (width st = 2 /\ height st = 2 /\
          (energy st == 12)%Q /\ (energy (flip st 0 0) == 10)%Q /\
          trial st Examples.zeros = Ok (flip st 0 0, skip 2 Examples.zeros) /\
          get (spin st) 0 0 = 1 /\ get (exchangeField st) 0 0 = 4 /\
          magneticField st = (-5)%Q)
    as (Ew & Eh & E1 & E2 & Et & Es & Ex & Ef)
    by (vm_compute in E; injection E as <- _; repeat split).
  repeat (split; [first [assumption | exact Runs.uniform_zeros]|]).
  destruct (trial_releases_deltaE st _ _ _ Hs Hc ltac:(lia) ltac:(lia)
              Runs.uniform_zeros Et) as [Est | [_ Hd]].
  - exfalso. rewrite Est in E2.
    assert (12 == 10)%Q as N by (rewrite <- E1; exact E2). discriminate.
  - assert (Qfloor (inject_Z (width st) * Examples.zeros 0%nat) = 0) as Ei
      by (rewrite Ew; reflexivity).
    assert (Qfloor (inject_Z (height st) * Examples.zeros 1%nat) = 0) as Ej
      by (rewrite Eh; reflexivity).
    rewrite Ei, Ej in Hd. rewrite Hd, Es, Ex, Ef. reflexivity.
Defined.

(** X11.  On a lattice of positive size with draws in [0,1): at a negative
    temperature every trial flips the chosen spin, whatever [deltaE]; at
    temperature 0 a trial flips it exactly when [deltaE >= 0]. *)
Theorem cold_trials (st : state) (g : Random) :
  well_shaped st -> 0 < width st -> 0 < height st -> uniform g ->
  let i := Qfloor (inject_Z (width st) * g 0%nat) in
  let j := Qfloor (inject_Z (height st) * g 1%nat) in
  let dE :=
    (- (2) * inject_Z (get (spin st) i j)
     * (inject_Z (get (exchangeField st) i j) + magneticField st))%Q in
  ((temperature st < 0)%Q ->
   exists g', trial st g = Ok (flip st i j, g')) /\
  ((temperature st == 0)%Q ->
   exists g',
     trial st g = Ok (if Qle_bool 0 dE then flip st i j else st, g')).
Proof.
  intros Hs Hw Hh Hg i j dE.
  destruct (trial_inside st g Hs Hw Hh Hg) as [_ Et]. fold i j in Et.
  change (deltaE (get (spin st) i j) (get (exchangeField st) i j)
            (magneticField st)) with dE in Et.
  destruct (attempt_cold dE (temperature st) (skip 2 g) (Hg 2%nat))
    as [H0 Hneg].
  split; intros Ht; eexists; rewrite Et.
  - now rewrite (Hneg Ht).
  - now rewrite (H0 Ht).
Qed.

Lemma cold_trials_witness :
  match new_Ising Scenarios.negative_temperature Examples.zeros with
  | Ok (st, _) =>
      well_shaped st /\ uniform Examples.zeros /\
      (temperature st < 0)%Q /\
      deltaE (get (spin st) 0 0) (get (exchangeField st) 0 0)
        (magneticField st) = (-8)%Q /\
      exists g', trial st Examples.zeros = Ok (flip st 0 0, g')
  | TypeError => False
  end.
Proof.
  destruct (new_Ising Scenarios.negative_temperature Examples.zeros)
    as [[st g]|] eqn:E; [|discriminate].
  pose proof (proj1 (invariant_reachable st (reach_new _ _ _ _ E))) as Hs.
  assert (width st = 2 /\ height st = 2 /\ (temperature st < 0)%Q /\
          deltaE (get (spin st) 0 0) (get (exchangeField st) 0 0)
            (magneticField st) = (-8)%Q)
    as (Ew & Eh & Ht & Ed)
    by (vm_compute in E; injection E as <- _; repeat split).
  split; [exact Hs|]. split; [exact Runs.uniform_zeros|].
  split; [exact Ht|]. split; [exact Ed|].
  destruct (cold_trials st Examples.zeros Hs ltac:(lia) ltac:(lia)
              Runs.uniform_zeros) as [Hneg _].
  destruct (Hneg Ht) as [g' Et]. exists g'.
  assert (Qfloor (inject_Z (width st) * Examples.zeros 0%nat) = 0) as Ei
    by (rewrite Ew; reflexivity).
  assert (Qfloor (inject_Z (height st) * Examples.zeros 1%nat) = 0) as Ej
    by (rewrite Eh; reflexivity).
  now rewrite Ei, Ej in Et.
Defined.

(** At temperature 0 a trial does not raise the energy. *)
Lemma trial_zero_temperature (st : state) (g : Random) :
  well_shaped st -> cache_ok st -> 2 <= width st -> 2 <= height st ->
  (temperature st == 0)%Q -> uniform g ->
  exists st' g',
    trial st g = Ok (st', g') /\ well_shaped st' /\ cache_ok st' /\
    width st' = width st /\ height st' = height st /\
    temperature st' = temperature st /\ uniform g' /\
    (energy st' <= energy st)%Q.
Proof.
  intros Hs Hc Hw Hh Ht Hg.
  destruct (Runs.trial_returns st g Hs ltac:(lia) ltac:(lia) Hg)
    as (st' & g' & E & Hs' & Hg' & Ew & Eh).
  exists st', g'. split; [exact E|]. split; [exact Hs'|].
  split; [exact (proj2 (invariant_trial _ _ _ _ (conj Hs Hc) E))|].
  split; [exact Ew|]. split; [exact Eh|].
  split; [|split; [exact Hg'|]].
  - destruct (Scheduler.trial_frame _ _ _ _ E) as (s & x & ->). reflexivity.
  - destruct (trial_outcome st st' g g' Hs ltac:(lia) ltac:(lia) Hg E)
      as [Hin Est].
    set (i := Qfloor (inject_Z (width st) * g 0%nat)) in *.
    set (j := Qfloor (inject_Z (height st) * g 1%nat)) in *.
    set (dE := deltaE (get (spin st) i j) (get (exchangeField st) i j)
                 (magneticField st)) in *.
    destruct (attempt_cold dE (temperature st) (skip 2 g) (Hg 2%nat))
      as [H0 _].
    rewrite (H0 Ht) in Est.
    destruct (Qle_bool 0 dE) eqn:Ed; rewrite Est; [|apply Qle_refl].
    apply Qle_bool_iff in Ed.
    pose proof (energy_released st i j Hs Hc Hw Hh Hin) as Er.
    fold dE in Er.
    assert (0 <= energy st - energy (flip st i j))%Q as Hd
      by (rewrite Er; exact Ed).
    apply Qle_minus_iff. exact Hd.
Qed.

(** X12.  At temperature 0, on a lattice with at least two columns and two
    rows whose exchange field is the neighbour sum, with draws in [0,1):
    [metropolis] returns and the energy [H(S)] after it is at most the
    energy before. *)
Theorem zero_temperature_never_raises_energy (st : state) (g : Random) :
  well_shaped st -> cache_ok st -> 2 <= width st -> 2 <= height st ->
  (temperature st == 0)%Q -> uniform g ->
  exists st' g',
    metropolis st g = Ok (st', g') /\ (energy st' <= energy st)%Q.
Proof.
  unfold metropolis. generalize (Z.to_nat (mcStepsPerFrame st)) as n.
  intros n. revert st g; induction n as [|n IH];
    intros st g Hs Hc Hw Hh Ht Hg; simpl.
  - exists st, g. split; [reflexivity|apply Qle_refl].
  - destruct (trial_zero_temperature st g Hs Hc Hw Hh Ht Hg)
      as (st1 & g1 & -> & Hs1 & Hc1 & Ew & Eh & Et & Hg1 & Hle).
    simpl. rewrite <- Ew in Hw. rewrite <- Eh in Hh. rewrite <- Et in Ht.
    destruct (IH st1 g1 Hs1 Hc1 Hw Hh Ht Hg1) as (st' & g' & E & Hle').
    exists st', g'. split; [exact E|].
    exact (Qle_trans _ _ _ Hle' Hle).
Qed.

Lemma zero_temperature_never_raises_energy_witness :
  match new_Ising Scenarios.zero_temperature Examples.zeros with
  | Ok (st, _) =>
      well_shaped st /\ cache_ok st /\ (temperature st == 0)%Q /\
      uniform Examples.zeros /\ (energy st == -8)%Q /\
      exists st' g',
        metropolis st Examples.zeros = Ok (st', g') /\
        (energy st' <= energy st)%Q
  | TypeError => False
  end.
Proof.
  destruct (new_Ising Scenarios.zero_temperature Examples.zeros)
    as [[st g]|] eqn:E; [|discriminate].
  destruct (invariant_reachable st (reach_new _ _ _ _ E)) as [Hs Hc].
  assert (width st = 2 /\ height st = 2 /\ (temperature st == 0)%Q /\
          (energy st == -8)%Q) as (Ew & Eh & Ht & Ee)
    by (vm_compute in E; injection E as <- _; repeat split).
  split; [exact Hs|]. split; [exact Hc|]. split; [exact Ht|].
  split; [exact Runs.uniform_zeros|]. split; [exact Ee|].
  apply zero_temperature_never_raises_energy;
    try assumption; try lia; exact Runs.uniform_zeros.
Defined.

End Energy.

(** ** Blocks of frames *)

Module Cadence.
Import Grid GridFacts Ising IsingSpec IsingTactics.
Import CacheInvariant Metropolis Scheduler Runs.

(** What a frame does to the counter and to the table. *)
Lemma frame_counts (st : state) (s x : Grid.t) :
  let st' := iterate (update (set_lattice st s x)) in
  frameCounter st' = frameCounter st + 1 /\
  averagingFrames st' = averagingFrames st /\
  exists row,
    dataTable st' =
    dataTable st ++
    (if rem_is_zero (frameCounter st) (averagingFrames st)
     then [row] else []).
Proof.
  destruct (update_writes (set_lattice st s x))
    as (m & o & am & ao & ax & tbl & Eu).
  pose proof (Observables.update_cadence (set_lattice st s x)) as Hc.
  cbn zeta in Hc. cbn [frameCounter averagingFrames set_lattice] in Hc.
  cbn zeta.
  destruct (Observables.schedule_fields_iterate
              (update (set_lattice st s x))) as [Et _].
  rewrite Et. split; [|split].
  - rewrite Eu. unfold_step. case_ifs; reflexivity.
  - rewrite Eu. unfold_step. case_ifs; reflexivity.
  - destruct (rem_is_zero (frameCounter st) (averagingFrames st)).
    + destruct Hc as (-> & _). eexists. reflexivity.
    + destruct Hc as (-> & _). exists
        {| r_temperature := 0; r_magneticField := 0;
           r_magnetization := 0; r_orderParameter := 0 |}.
      cbn [dataTable set_lattice]. now rewrite app_nil_r.
Qed.

Lemma div_next (n b : Z) :
  1 <= n -> 0 < b ->
  n / b = (n - 1) / b + Z.b2z (rem_is_zero n b).
Proof.
  intros Hn Hb. unfold rem_is_zero.
  destruct (Z.eqb_spec b 0); [lia|].
  rewrite Z.rem_mod_nonneg by lia.
  pose proof (Z.div_mod (n - 1) b ltac:(lia)) as E.
  pose proof (Z.mod_pos_bound (n - 1) b Hb) as Hr.
  set (q := (n - 1) / b) in *. set (r := (n - 1) mod b) in *.
  destruct (Z.eq_dec (r + 1) b) as [Er|Er].
  - assert (n = (q + 1) * b) as En by lia.
    rewrite En, Z.div_mul, Z.mod_mul by lia. cbn. lia.
  - assert (n = b * q + (r + 1)) as En by lia.
    rewrite <- (Z.div_unique_pos n b q (r + 1)) by lia.
    rewrite <- (Z.mod_unique_pos n b q (r + 1)) by lia.
    destruct (Z.eqb_spec (r + 1) 0); cbn; lia.
Qed.

(** The counter of a running engine counts the frames. *)
Lemma frames_counter (n : nat) (st st' : state) (g g' : Random) :
  frames n st g = Ok (st', g') -> looping st' = true ->
  frameCounter st' = frameCounter st + Z.of_nat n.
Proof.
  revert st g; induction n as [|n IH]; intros st g; simpl.
  - intros E _. injection E as <- _. lia.
  - destruct (looping st) eqn:El;
      [|intros E; injection E as <- _; congruence].
    unfold draw. destruct (simulationStep st g) as [[st1 g1]|] eqn:E1;
      [|discriminate].
    simpl. intros E Hl. rewrite (IH _ _ E Hl).
    apply simulationStep_frame in E1. destruct E1 as (s & x & ->).
    destruct (frame_counts st s x) as (-> & _). lia.
Qed.

(** X5.  With a positive [averagingFrames], after the constructor and any
    number of frames the table holds one row for every completed block:
    [(frameCounter - 1) / averagingFrames] rows; and while the draw loop is
    running, [frameCounter - 1] is the number of frames run. *)
Theorem one_row_per_block (settings : Settings) (n : nat) (g g' : Random)
    (st : state) :
  0 < s_averagingFrames settings ->
  sketch settings n g = Ok (st, g') ->
  Z.of_nat (List.length (dataTable st)) =
  (frameCounter st - 1) / s_averagingFrames settings /\
  (looping st = true -> frameCounter st = Z.of_nat n + 1).
Proof.
  intros Hb. unfold sketch.
  destruct (new_Ising settings g) as [[st0 g0]|] eqn:E0; [|discriminate].
  simpl. intros E.
  destruct (new_Ising_fields _ _ _ _ E0)
    as (m & _ & _ & _ & _ & _ & _ & _ & Eb & _ & _ & Efc & _ & _ & Etb).
  split.
  - refine (proj2 (proj2 (frames_invariant
      (fun s0 => averagingFrames s0 = s_averagingFrames settings /\
                 (1 <= frameCounter s0 /\
                  Z.of_nat (List.length (dataTable s0)) =
                  (frameCounter s0 - 1) / s_averagingFrames settings))
      _ n st0 g0 st g' _ E))).
    + intros s0 s x (EB & Hfc & Hrows).
      destruct (frame_counts s0 s x) as (Ec & EB' & row & Et).
      cbn zeta in Ec, EB', Et. rewrite Ec, EB', Et, EB.
      split; [reflexivity|]. split; [lia|].
      rewrite length_app, Nat2Z.inj_add, Hrows.
      replace (frameCounter s0 + 1 - 1) with (frameCounter s0) by lia.
      rewrite (div_next (frameCounter s0) _ Hfc Hb).
      destruct (rem_is_zero (frameCounter s0) (s_averagingFrames settings));
        cbn [List.length Z.b2z]; lia.
    + rewrite Eb, Efc, Etb. split; [reflexivity|]. split; [lia|].
      replace (1 - 1) with 0 by lia. now rewrite Z.div_0_l by lia.
  - intros Hl. rewrite (frames_counter _ _ _ _ _ E Hl), Efc. lia.
Qed.

Lemma one_row_per_block_witness :
  0 < s_averagingFrames (Examples.sweep_settings 0 0 false) /\
  match sketch (Examples.sweep_settings 0 0 false) 12 Examples.zeros with
  | Ok (st, _) =>
      Z.of_nat (List.length (dataTable st)) = (frameCounter st - 1) / 5 /\
      (looping st = true -> frameCounter st = 13)
  | TypeError => False
  end.
Proof.
  split; [reflexivity|].
  pose proof (one_row_per_block
                (Examples.sweep_settings 0 0 false) 12 Examples.zeros) as H.
  assert (sketch (Examples.sweep_settings 0 0 false) 12 Examples.zeros
          <> TypeError) as N by (vm_compute; discriminate).
  destruct (sketch (Examples.sweep_settings 0 0 false) 12 Examples.zeros)
    as [[st g]|]; [|congruence].
  exact (H g st eq_refl eq_refl).
Defined.

(** X6.  With [averagingFrames] equal to 0 ([frameCounter % 0] is [NaN]):
    after any number of frames the table is empty, the draw loop is still
    running, and temperature, field and increment are those of the
    settings. *)
Theorem no_blocks_without_averaging (settings : Settings) (n : nat)
    (g g' : Random) (st : state) :
  s_averagingFrames settings = 0 ->
  sketch settings n g = Ok (st, g') ->
  dataTable st = [] /\ looping st = true /\
  frameCounter st = Z.of_nat n + 1 /\
  temperature st = s_temperature settings /\
  magneticField st = s_magneticField settings /\
  loopIncrement st = s_loopIncrement settings.
Proof.
  intros Hb. unfold sketch.
  destruct (new_Ising settings g) as [[st0 g0]|] eqn:E0; [|discriminate].
  simpl. intros E.
  destruct (new_Ising_fields _ _ _ _ E0)
    as (m & _ & _ & _ & Et & Eh & _ & Ei & Eb & _ & _ & Efc & _ & El & Etb).
  assert (averagingFrames st = 0 /\ dataTable st = [] /\
          looping st = true /\
          temperature st = s_temperature settings /\
          magneticField st = s_magneticField settings /\
          loopIncrement st = s_loopIncrement settings)
    as (_ & H1 & H2 & H3 & H4 & H5).
  { refine (frames_invariant
      (fun s0 => averagingFrames s0 = 0 /\ dataTable s0 = [] /\
                 looping s0 = true /\
                 temperature s0 = s_temperature settings /\
                 magneticField s0 = s_magneticField settings /\
                 loopIncrement s0 = s_loopIncrement settings)
      _ n st0 g0 st g' _ E).
    - intros s0 s x (EB & Hr & Hl & HT & Hh & Hi).
      destruct (update_writes (set_lattice s0 s x))
        as (m1 & o1 & am & ao & ax & tbl & Eu).
      pose proof (Observables.update_cadence (set_lattice s0 s x)) as Hc.
      cbn zeta in Hc. cbn [frameCounter averagingFrames set_lattice] in Hc.
      rewrite EB in Hc. unfold rem_is_zero in Hc. cbn [Z.eqb] in Hc.
      destruct Hc as (Etab & _).
      destruct (Observables.schedule_fields_iterate
                  (update (set_lattice s0 s x))) as [Eit _].
      rewrite Eit, Etab. cbn [dataTable set_lattice].
      rewrite Eu. unfold_step. rewrite EB. unfold rem_is_zero.
      cbn [Z.eqb]. repeat split; assumption.
    - rewrite Eb, Hb, Etb, El, Et, Eh, Ei. repeat split. }
  repeat (split; [assumption|]). split; [|now split].
  rewrite (frames_counter _ _ _ _ _ E H2), Efc. lia.
Qed.

Lemma no_blocks_without_averaging_witness :
  s_averagingFrames Scenarios.no_averaging = 0 /\
  match sketch Scenarios.no_averaging 3 Examples.zeros with
  | Ok (st, _) =>
      dataTable st = [] /\ looping st = true /\ frameCounter st = 4 /\
      temperature st = 0%Q
  | TypeError => False
  end.
Proof.
  split; [reflexivity|].
  pose proof (no_blocks_without_averaging
                Scenarios.no_averaging 3 Examples.zeros) as H.
  assert (sketch Scenarios.no_averaging 3 Examples.zeros <> TypeError)
    as N by (vm_compute; discriminate).
  destruct (sketch Scenarios.no_averaging 3 Examples.zeros)
    as [[st g]|]; [|congruence].
  destruct (H g st eq_refl eq_refl) as (H1 & H2 & H3 & H4 & _).
  now repeat split.
Defined.

End Cadence.
